(** * order-manager: the mock exchange and the soak-test driver

    A shallow embedding of [scripts/mock_binance.py] (the fault-injection
    service) and of [scripts/cli_loop_test.py] (the soak-test driver), with
    the properties of the design document stated over them.

    Conventions.
    - Python integers are [Z].  A finite float is the rational it denotes,
      and every float operation rounds its exact result to binary64
      (module [Binary64]); the two zeros are one.  Durations, the timeout
      and the pause are finite floats, [Q]; the percentile proportion, the
      sum and the average are floats that may be infinite or NaN.
    - The module-level dictionary [attempt_registry] is a [gmap string Z]
      threaded through the handlers.
    - The clock, the spawned process and the console are the environment:
      the clock and the process are oracles, the console and the other
      effects are a trace of events. *)

From Stdlib Require Import ZArith QArith Qround Qabs Qpower List Lia Lqa.
From Stdlib Require Import SpecFloat.
From Stdlib Require Import Sorting.Sorted Sorting.Permutation.
From Stdlib Require Import Ascii DecimalString.
From stdpp Require Import gmap strings.

Import ListNotations.
Local Open Scope string_scope.
Local Open Scope list_scope.
Local Open Scope Z_scope.

(** ** JSON values and HTTP responses *)

#[local] Set Warnings "-register-all".

Inductive json : Type :=
| JStr (s : string)
| JInt (n : Z)
| JList (items : list json)
| JDict (fields : list (string * json)).

Record response : Type := Response { status : Z; body : json }.

(** [jsonify(d)] alone is a 200 response; [jsonify(d), code] carries [code]. *)
Definition jsonify (fields : list (string * json)) : json := JDict fields.
Definition ok (b : json) : response := Response 200 b.

(** Field access on a JSON object, first match (keys are unique below). *)
Fixpoint assoc (k : string) (fields : list (string * json)) : option json :=
  match fields with
  | [] => None
  | (k', v) :: rest => if String.eqb k k' then Some v else assoc k rest
  end.

Definition field (k : string) (j : json) : option json :=
  match j with
  | JDict fields => assoc k fields
  | _ => None
  end.

(** ** mock_binance.py *)

Module MockBinance.

(** [attempt_registry = {}] *)
Definition attempt_registry : gmap string Z := ∅.

(** [attempt_registry[endpoint] = attempt_registry.get(endpoint, 0) + 1;
    return attempt_registry[endpoint]] *)
Definition get_attempt (endpoint : string) (reg : gmap string Z)
  : Z * gmap string Z :=
  let reg' := <[endpoint := default 0 (reg !! endpoint) + 1]> reg in
  (reg' !!! endpoint, reg').

(** [attempt_registry[endpoint] = 0] *)
Definition reset_attempt (endpoint : string) (reg : gmap string Z)
  : gmap string Z :=
  <[endpoint := 0]> reg.

(** A handler reads the clock ([int(time.time() * 1000)], given as
    [now_ms]) and the registry, and returns its response with the registry
    it leaves behind.  Console logging of the handlers is not modelled. *)
Definition handler : Type := Z -> gmap string Z -> response * gmap string Z.

Definition mock_time : handler := fun now_ms reg =>
  let '(attempt, reg) := get_attempt "time" reg in
  if attempt <? 4 then
    (Response 503 (jsonify [("msg", JStr "Server Busy")]), reg)
  else
    let reg := reset_attempt "time" reg in
    (ok (jsonify [("serverTime", JInt now_ms)]), reg).

(** [symbol] is [request.args.get('symbol', 'BTCUSDT')]: [None] when the
    query string has no symbol. *)
Definition mock_exchange_info (symbol : option string) : handler :=
  fun _ reg =>
  let symbol := default "BTCUSDT" symbol in
  (ok (jsonify
     [("symbols", JList [jsonify
        [("symbol", JStr symbol);
         ("status", JStr "TRADING");
         ("baseAsset", JStr "BTC");
         ("quoteAsset", JStr "USDT");
         ("filters", JList
            [jsonify [("filterType", JStr "PRICE_FILTER");
                      ("minPrice", JStr "0.01");
                      ("maxPrice", JStr "100000.00");
                      ("tickSize", JStr "0.01")];
             jsonify [("filterType", JStr "LOT_SIZE");
                      ("minQty", JStr "0.0001");
                      ("maxQty", JStr "100.00");
                      ("stepSize", JStr "0.0001")];
             jsonify [("filterType", JStr "MIN_NOTIONAL");
                      ("minNotional", JStr "10.00")];
             jsonify [("filterType", JStr "PERCENT_PRICE_BY_SIDE");
                      ("bidMultiplierUp", JStr "1.2");
                      ("bidMultiplierDown", JStr "0.8");
                      ("askMultiplierUp", JStr "1.2");
                      ("askMultiplierDown", JStr "0.8");
                      ("avgPriceMins", JInt 5)]])]])]),
   reg).

Definition mock_ticker : handler := fun _ reg =>
  let '(attempt, reg) := get_attempt "ticker" reg in
  if attempt =? 4 then
    (Response 429 (jsonify [("code", JInt (-1003));
                            ("msg", JStr "Too many requests")]), reg)
  else
    let reg := reset_attempt "ticker" reg in
    (ok (jsonify [("symbol", JStr "BTCUSDT"); ("price", JStr "60000.00")]),
     reg).

Definition mock_account : handler := fun _ reg =>
  (ok (jsonify
     [("balances", JList
        [jsonify [("asset", JStr "BTC");
                  ("free", JStr "1.50000000");
                  ("locked", JStr "0.00000000")];
         jsonify [("asset", JStr "USDT");
                  ("free", JStr "10000.00000000");
                  ("locked", JStr "500.00000000")]])]),
   reg).

Definition mock_place_order : handler := fun now_ms reg =>
  let '(attempt, reg) := get_attempt "place_order" reg in
  if attempt <=? 4 then
    (Response 418 (jsonify [("code", JInt (-1003));
                            ("msg", JStr "IP Banned")]), reg)
  else
    let reg := reset_attempt "place_order" reg in
    (ok (jsonify
       [("symbol", JStr "BTCUSDT");
        ("orderId", JInt 1234567);
        ("clientOrderId", JStr "");
        ("transactTime", JInt now_ms);
        ("price", JStr "55000.00");
        ("origQty", JStr "0.1");
        ("executedQty", JStr "0.0");
        ("status", JStr "NEW")]),
     reg).

(** The five routes of the Flask application. *)
Inductive request : Type :=
| GetTime
| GetExchangeInfo (symbol : option string)
| GetTicker
| GetAccount
| PostOrder.

Definition dispatch (r : request) : handler :=
  match r with
  | GetTime => mock_time
  | GetExchangeInfo symbol => mock_exchange_info symbol
  | GetTicker => mock_ticker
  | GetAccount => mock_account
  | PostOrder => mock_place_order
  end.

(** The service handles a sequence of requests, each at its clock reading,
    one after the other on the shared registry. *)
Fixpoint serve (reg : gmap string Z) (reqs : list (Z * request))
  : list response * gmap string Z :=
  match reqs with
  | [] => ([], reg)
  | (now_ms, r) :: rest =>
      let '(resp, reg) := dispatch r now_ms reg in
      let '(resps, reg) := serve reg rest in
      (resp :: resps, reg)
  end.

(** The registry key a route passes to [get_attempt], if any. *)
Definition counter_key (r : request) : option string :=
  match r with
  | GetTime => Some "time"
  | GetTicker => Some "ticker"
  | PostOrder => Some "place_order"
  | GetExchangeInfo _ | GetAccount => None
  end.

(** The value of an endpoint's counter; an endpoint never called yet has
    no entry and counts as 0, as in [attempt_registry.get(endpoint, 0)]. *)
Definition counter (key : string) (reg : gmap string Z) : Z :=
  default 0 (reg !! key).

(** How many of the requests went to the endpoint with counter [key]. *)
Definition calls_to (key : string) (reqs : list (Z * request)) : Z :=
  Z.of_nat
    (length
       (List.filter (fun tr => bool_decide (counter_key tr.2 = Some key))
          reqs)).

(** The route a request is served on. *)
Definition endpoint (r : request) : string :=
  match r with
  | GetTime => "/api/v3/time"
  | GetExchangeInfo _ => "/api/v3/exchangeInfo"
  | GetTicker => "/api/v3/ticker/price"
  | GetAccount => "/api/v3/account"
  | PostOrder => "/api/v3/order"
  end.

(** The requests that went to the endpoint on [route], and the responses
    those requests got. *)
Definition requests_to (route : string) (reqs : list (Z * request))
  : list (Z * request) :=
  List.filter (fun tr => String.eqb (endpoint tr.2) route) reqs.

Definition answers_to (route : string) (reqs : list (Z * request))
  (resps : list response) : list response :=
  map snd
    (List.filter (fun p => String.eqb (endpoint p.1.2) route)
       (combine reqs resps)).

End MockBinance.

(** ** Python floats *)

Module Binary64.

(** A float is a finite number, an infinity or NaN.  A finite float is
    given by the rational it denotes; the operations below produce only
    rationals that binary64 represents. *)
Inductive float : Type :=
| Finite (q : Q)
| Infinite (negative : bool)
| NaN.

(** What a Python expression gives: a value, or an exception raised. *)
Inductive answer (A : Type) : Type :=
| Value (a : A)
| Raised (exn : string).

Arguments Value {A} a.
Arguments Raised {A} exn.

Definition pow2 (e : Z) : Q := Qpower 2 e.

Definition negative (q : Q) : bool :=
  match Qcompare q 0 with Lt => true | _ => false end.

(** [floor(log2 a)] for a positive [a]. *)
Definition ilog2 (a : Q) : Z :=
  let e := Z.log2 (Qnum a) - Z.log2 (Zpos (Qden a)) in
  if Qle_bool (pow2 e) a then e else e - 1.

(** The nearest integer, the even one of two equally near. *)
Definition round_half_even (k : Q) : Z :=
  let f := Qfloor k in
  match Qcompare (k - inject_Z f) (1 # 2) with
  | Lt => f
  | Gt => f + 1
  | Eq => if Z.even f then f else f + 1
  end.

(** Rounding of a real number to binary64, to nearest with ties to even:
    a 53-bit significand, exponents from -1022 (below that the spacing
    stays [2^-1074]) to 1023, and infinity from [2^1024] on. *)
Definition round (q : Q) : float :=
  let q := Qred q in
  match Qcompare q 0 with
  | Eq => Finite 0
  | _ =>
      let a := Qabs q in
      let e := Z.max (ilog2 a) (-1022) in
      let ulp := pow2 (e - 52) in
      let r := (inject_Z (round_half_even (a / ulp)) * ulp)%Q in
      if Qle_bool (pow2 1024) r then Infinite (negative q)
      else Finite (Qred (if negative q then - r else r))
  end.

(** A decimal literal of the program text is the nearest float. *)
Definition literal (q : Q) : float := round q.

(** An integer operand of a float operation is converted first;
    [OverflowError] when it is too large for a float. *)
Definition float_of_int (n : Z) : answer float :=
  match round (inject_Z n) with
  | Infinite _ => Raised "OverflowError"
  | x => Value x
  end.

(** [x * y] *)
Definition fmul (x y : float) : float :=
  match x, y with
  | NaN, _ | _, NaN => NaN
  | Finite a, Finite b => round (a * b)
  | Infinite s, Finite b | Finite b, Infinite s =>
      if Qeq_bool b 0 then NaN else Infinite (xorb s (negative b))
  | Infinite s, Infinite t => Infinite (xorb s t)
  end.

(** [x + y] *)
Definition fadd (x y : float) : float :=
  match x, y with
  | NaN, _ | _, NaN => NaN
  | Finite a, Finite b => round (a + b)
  | Infinite s, Finite _ | Finite _, Infinite s => Infinite s
  | Infinite s, Infinite t => if Bool.eqb s t then Infinite s else NaN
  end.

(** [x / y]; Python raises [ZeroDivisionError] for a zero divisor. *)
Definition fdiv (x y : float) : answer float :=
  match y with
  | NaN => Value NaN
  | Finite b =>
      if Qeq_bool b 0 then Raised "ZeroDivisionError"
      else match x with
           | NaN => Value NaN
           | Finite a => Value (round (a / b))
           | Infinite s => Value (Infinite (xorb s (negative b)))
           end
  | Infinite _ =>
      match x with
      | Finite _ => Value (Finite 0)
      | _ => Value NaN
      end
  end.

(** [math.ceil(x)] *)
Definition ceil (x : float) : answer Z :=
  match x with
  | Finite q => Value (Qceiling q)
  | Infinite _ => Raised "OverflowError"
  | NaN => Raised "ValueError"
  end.

(** The float a number of the Standard Library's IEEE 754 specification
    denotes, to compare the operations above with that specification. *)
Definition of_spec (x : spec_float) : float :=
  match x with
  | S754_zero _ => Finite 0
  | S754_infinity s => Infinite s
  | S754_nan => NaN
  | S754_finite s m e =>
      Finite (Qred ((if s then - inject_Z (Zpos m) else inject_Z (Zpos m))
                    * pow2 e))
  end.

End Binary64.

(** ** cli_loop_test.py *)

Module CliLoopTest.

Import Binary64.

(** *** Strings and lists as Python has them *)

(** [needle in hay] *)
Fixpoint contains (needle hay : string) : bool :=
  String.prefix needle hay
  || match hay with
     | EmptyString => false
     | String _ rest => contains needle rest
     end.

(** [s.replace(old, new)] for a non-empty [old]: the occurrences of [old]
    are replaced from the left, without overlap.  [skip] counts the
    characters of a matched occurrence still to be dropped. *)
Fixpoint replace_from (old new : string) (skip : nat) (s : string) : string :=
  match s with
  | EmptyString => EmptyString
  | String c rest =>
      match skip with
      | S k => replace_from old new k rest
      | O =>
          if String.prefix old s
          then new +:+ replace_from old new (String.length old - 1) rest
          else String c (replace_from old new 0 rest)
      end
  end.

Definition replace (old new s : string) : string := replace_from old new 0 s.

(** [str(n)] for an integer. *)
Definition str (n : Z) : string := NilZero.string_of_int (Z.to_int n).

(** [range(lo, hi)] *)
Definition range (lo hi : Z) : list Z :=
  map (fun k => lo + Z.of_nat k) (seq 0 (Z.to_nat (hi - lo))).

(** [l[i]] with Python's negative indices; [None] is [IndexError]. *)
Definition getitem {A : Type} (l : list A) (i : Z) : option A :=
  let n := Z.of_nat (length l) in
  if 0 <=? i then (if i <? n then nth_error l (Z.to_nat i) else None)
  else if - n <=? i then nth_error l (Z.to_nat (n + i))
  else None.

Definition Qlt_bool (x y : Q) : bool := negb (Qle_bool y x).

(** [sorted(values)]: a stable sort by [<]; here by insertion. *)
Fixpoint insert (x : Q) (l : list Q) : list Q :=
  match l with
  | [] => [x]
  | y :: l' => if Qlt_bool y x then y :: insert x l' else x :: y :: l'
  end.

Fixpoint sorted (values : list Q) : list Q :=
  match values with
  | [] => []
  | x :: rest => insert x (sorted rest)
  end.

(** [min] and [max] of a non-empty list [x :: rest]: the first smallest and
    the first largest element. *)
Definition py_min (x : Q) (rest : list Q) : Q :=
  fold_left (fun m y => if Qlt_bool y m then y else m) rest x.

Definition py_max (x : Q) (rest : list Q) : Q :=
  fold_left (fun m y => if Qlt_bool m y then y else m) rest x.

(** [sum(values)]: the values added from the left to the start value 0,
    each addition rounded.  (CPython from 3.12 on also carries a correction
    term for the rounding errors; the properties below use of the sum only
    that it is a float.) *)
Definition sum (values : list Q) : float :=
  fold_left (fun total v => fadd total (Finite v)) values (Finite 0).

(** *** The functions of the script *)

(** The parsed command line ([parse_args] itself is argparse). *)
Record Namespace : Type := {
  jar : string;
  iterations : Z;
  sleep : Q;
  timeout : Q;
  log_dir : string;
  verbose : bool;
  command : list string;
}.

(** What a spawned process does when left alone: how long it runs, its
    exit code, and its merged standard output and error; and [elapsed],
    the wall-clock time the driver measures around the call when the
    process ends in time.  The executable is taken to start and its output
    to be text, as the design document has it (an opaque executable giving
    text and an exit code): other failures of [subprocess.run] are not
    part of the environment. *)
Record completed : Type := {
  run_time : Q;
  elapsed : Q;
  returncode : Z;
  stdout : string;
}.

(** The environment of a run: the clock read by [render_command] in
    iteration [i], and the behaviour of the process spawned there. *)
Record world : Type := {
  time_ms : Z -> Z;
  process : Z -> list string -> completed;
}.

Record result : Type := {
  exit_code : Z;
  duration : Q;
  output : string;
  retriable : bool;
  rate_limit : bool;
}.

(** [subprocess.run(cmd, ..., timeout=timeout)] raises [TimeoutExpired]
    ([None] here) when the process is still running after [timeout]
    seconds; otherwise the duration is the time measured around the
    call. *)
Definition run_once (p : completed) (timeout : Q) : option result :=
  if Qlt_bool timeout (run_time p) then None
  else
    let output := stdout p in
    Some {| exit_code := returncode p;
            duration := elapsed p;
            output := output;
            retriable := contains "Retriable error" output;
            rate_limit := contains "Rate limit exceeded" output |}.

(** [int(math.ceil(pct * len))]: [len] is converted to a float, the product
    is a float product, and [math.ceil] raises on an infinite or NaN
    product. *)
Definition ceil_of_product (pct : float) (len : Z) : answer Z :=
  match float_of_int len with
  | Raised exn => Raised exn
  | Value n => ceil (fmul pct n)
  end.

Definition percentile (values : list Q) (pct : float) : answer Q :=
  match values with
  | [] => Value 0%Q
  | _ =>
      let sorted_vals := sorted values in
      let len := Z.of_nat (length sorted_vals) in
      match ceil_of_product pct len with
      | Raised exn => Raised exn
      | Value c =>
          let idx := c - 1 in
          let idx := Z.max 0 (Z.min idx (len - 1)) in
          match getitem sorted_vals idx with
          | Some v => Value v
          | None => Raised "IndexError"
          end
      end
  end.

Definition render_command (timestamp_ms : Z) (args : list string)
  (iteration : Z) : list string :=
  map (fun arg =>
         let arg := replace "{i}" (str iteration) arg in
         replace "{ts}" (str timestamp_ms) arg)
      args.

(** Everything [main] does to the outside, in order.  Printed lines are
    kept with their fields, not formatted. *)
Record summary : Type := {
  sum_command : string;
  sum_iterations : Z;
  sum_successes : Z;
  sum_rate_limits : Z;
  sum_retriable_seen : Z;
  sum_crashes : Z;
  sum_avg : float;
  sum_p50 : Q;
  sum_p95 : Q;
  sum_min : Q;
  sum_max : Q;
}.

Inductive event : Type :=
| PrintError
| Makedirs (dir : string)
| Spawn (cmd : list string) (timeout : Q)
| PrintTimeout (i : Z) (timeout : Q)
| WriteLog (dir : string) (i : Z) (output : string)
| PrintOutput (output : string)
| PrintLine (i : Z) (status : string) (exit_code : Z) (elapsed : Q)
    (retriable : bool)
| Sleep (seconds : Q)
| PrintSummary (s : summary).

(** [write_log(log_dir, iteration, output)] *)
Definition write_log (log_dir : string) (iteration : Z) (output : string)
  : list event :=
  if String.eqb log_dir "" then [] else [WriteLog log_dir iteration output].

(** The counters and the duration list of [main]. *)
Record tallies : Type := {
  crashes : Z;
  rate_limits : Z;
  successes : Z;
  retriable_seen : Z;
  durations : list Q;
}.

Definition tallies0 : tallies :=
  {| crashes := 0; rate_limits := 0; successes := 0; retriable_seen := 0;
     durations := [] |}.

(** The body of the [for] loop, for iteration [i]. *)
Definition iteration (w : world) (args : Namespace)
  (base_cmd cli_args : list string) (t : tallies) (i : Z)
  : tallies * list event :=
  let cmd := base_cmd ++ render_command (time_ms w i) cli_args i in
  match run_once (process w i cmd) (timeout args) with
  | None =>
      ({| crashes := crashes t + 1;
          rate_limits := rate_limits t;
          successes := successes t;
          retriable_seen := retriable_seen t;
          durations := durations t |},
       [Spawn cmd (timeout args); PrintTimeout i (timeout args)])
  | Some result =>
      let logged := write_log (log_dir args) i (output result) in
      let echoed := if verbose args then [PrintOutput (output result)] else [] in
      let durations := durations t ++ [duration result] in
      let crashes :=
        if negb (exit_code result =? 0) then crashes t + 1 else crashes t in
      let retriable_seen :=
        if retriable result then retriable_seen t + 1 else retriable_seen t in
      let '(rate_limits, successes, status) :=
        if rate_limit result then (rate_limits t + 1, successes t, "RATE_LIMIT")
        else if exit_code result =? 0 then (rate_limits t, successes t + 1, "OK")
        else (rate_limits t, successes t, "FAIL") in
      let paced := if Qlt_bool 0 (sleep args) then [Sleep (sleep args)] else [] in
      ({| crashes := crashes;
          rate_limits := rate_limits;
          successes := successes;
          retriable_seen := retriable_seen;
          durations := durations |},
       [Spawn cmd (timeout args)] ++ logged ++ echoed
       ++ [PrintLine i status (exit_code result) (duration result)
             (retriable result)]
       ++ paced)
  end.

(** The [for] loop over the iteration numbers [indices]. *)
Fixpoint loop (w : world) (args : Namespace) (base_cmd cli_args : list string)
  (t : tallies) (indices : list Z) : tallies * list event :=
  match indices with
  | [] => (t, [])
  | i :: rest =>
      let '(t, events) := iteration w args base_cmd cli_args t i in
      let '(t, events') := loop w args base_cmd cli_args t rest in
      (t, events ++ events')
  end.

(** How [main] ends: it returns an exit code, or an exception escapes. *)
Inductive termination : Type :=
| Return (code : Z)
| Raise (exn : string).

(** The command tokens [main] settles on: the default when none are given,
    and a leading separator dropped. *)
Definition cli_args (args : Namespace) : list string :=
  let cli_args :=
    match command args with [] => ["balances"] | _ => command args end in
  match cli_args with
  | first :: rest => if String.eqb first "--" then rest else cli_args
  | [] => cli_args
  end.

Definition base_cmd (args : Namespace) : list string :=
  ["java"; "-jar"; jar args].

(** The whole [for i in range(1, args.iterations + 1)] loop, from the
    initial counters. *)
Definition run (w : world) (args : Namespace) (cli_args : list string)
  : tallies * list event :=
  loop w args (base_cmd args) cli_args tallies0
    (range 1 (iterations args + 1)).

Definition main (w : world) (args : Namespace) : termination * list event :=
  let cli_args := cli_args args in
  match cli_args with
  | [] => (Return 2, [PrintError])
  | _ =>
      let made :=
        if String.eqb (log_dir args) "" then [] else [Makedirs (log_dir args)] in
      let '(t, events) := run w args cli_args in
      let avg :=
        match durations t with
        | [] => Value (Finite 0)
        | _ =>
            match float_of_int (Z.of_nat (length (durations t))) with
            | Raised exn => Raised exn
            | Value len => fdiv (sum (durations t)) len
            end
        end in
      match avg,
            percentile (durations t) (literal 0.50),
            percentile (durations t) (literal 0.95) with
      | Value avg, Value p50, Value p95 =>
          let fastest :=
            match durations t with [] => 0%Q | x :: rest => py_min x rest end in
          let slowest :=
            match durations t with [] => 0%Q | x :: rest => py_max x rest end in
          let report :=
            {| sum_command := String.concat " " cli_args;
               sum_iterations := iterations args;
               sum_successes := successes t;
               sum_rate_limits := rate_limits t;
               sum_retriable_seen := retriable_seen t;
               sum_crashes := crashes t;
               sum_avg := avg;
               sum_p50 := p50;
               sum_p95 := p95;
               sum_min := fastest;
               sum_max := slowest |} in
          (Return (if 0 <? crashes t then 2 else 0),
           made ++ events ++ [PrintSummary report])
      | Raised exn, _, _ | _, Raised exn, _ | _, _, Raised exn =>
          (Raise exn, made ++ events)
      end
  end.

(** The defaults of [parse_args], with no command token. *)
Definition defaults : Namespace :=
  {| jar := "target/order-manager-1.0.0.jar";
     iterations := 50;
     sleep := 0.2;
     timeout := 30.0;
     log_dir := "";
     verbose := false;
     command := [] |}.

(** Two environments to run [main] in: one where every process ends at once
    with exit code 0 and no output, and one where the process of iteration
    2 runs for 40 seconds. *)
Definition quiet : world :=
  {| time_ms := fun _ => 0;
     process := fun _ _ =>
       {| run_time := 0; elapsed := 0; returncode := 0; stdout := "" |} |}.

Definition slow_second : world :=
  {| time_ms := fun i => 1000 + i;
     process := fun i _ =>
       {| run_time := if i =? 2 then 40 else 1;
          elapsed := 1;
          returncode := 0;
          stdout := "ok" |} |}.

(** The index [percentile] reads at, for a list of [n] values and the
    ceiling [c]: its two assignments to [idx]. *)
Definition clamped_index (c n : Z) : Z :=
  Z.max 0 (Z.min (c - 1) (n - 1)).

(** *** Reading a trace *)

(** The per-iteration lines of a trace: iteration number and the status
    word printed on the line. *)
Fixpoint reported (events : list event) : list (Z * string) :=
  match events with
  | [] => []
  | PrintTimeout i _ :: rest => (i, "TIMEOUT") :: reported rest
  | PrintLine i status _ _ _ :: rest => (i, status) :: reported rest
  | _ :: rest => reported rest
  end.

(** The commands spawned in a trace. *)
Fixpoint spawned (events : list event) : list (list string) :=
  match events with
  | [] => []
  | Spawn cmd _ :: rest => cmd :: spawned rest
  | _ :: rest => spawned rest
  end.

(** The command line of iteration [i] and whether its process outlives
    the timeout. *)
Definition cmd_of (w : world) (args : Namespace) (cli_args : list string)
  (i : Z) : list string :=
  base_cmd args ++ render_command (time_ms w i) cli_args i.

Definition times_out (w : world) (args : Namespace) (cli_args : list string)
  (i : Z) : bool :=
  Qlt_bool (timeout args) (run_time (process w i (cmd_of w args cli_args i))).

(** The duration samples the iterations [indices] yield: one for each
    iteration whose process ends in time. *)
Definition samples (w : world) (args : Namespace) (cli_args : list string)
  (indices : list Z) : list Q :=
  flat_map
    (fun i =>
       if times_out w args cli_args i then []
       else [elapsed (process w i (cmd_of w args cli_args i))])
    indices.

(** The directories created, the log files written, the outputs echoed,
    the pauses taken and the summaries printed in a trace. *)
Fixpoint created (events : list event) : list string :=
  match events with
  | [] => []
  | Makedirs dir :: rest => dir :: created rest
  | _ :: rest => created rest
  end.

Fixpoint logged (events : list event) : list (string * Z * string) :=
  match events with
  | [] => []
  | WriteLog dir i output :: rest => (dir, i, output) :: logged rest
  | _ :: rest => logged rest
  end.

Fixpoint echoed (events : list event) : list string :=
  match events with
  | [] => []
  | PrintOutput output :: rest => output :: echoed rest
  | _ :: rest => echoed rest
  end.

Fixpoint slept (events : list event) : list Q :=
  match events with
  | [] => []
  | Sleep seconds :: rest => seconds :: slept rest
  | _ :: rest => slept rest
  end.

Fixpoint summaries (events : list event) : list summary :=
  match events with
  | [] => []
  | PrintSummary s :: rest => s :: summaries rest
  | _ :: rest => summaries rest
  end.

(** What the process of iteration [i] does, and what its output shows. *)
Definition outcome (w : world) (args : Namespace) (cli_args : list string)
  (i : Z) : completed :=
  process w i (cmd_of w args cli_args i).

Definition in_time (w : world) (args : Namespace) (cli_args : list string)
  (i : Z) : bool :=
  negb (times_out w args cli_args i).

Definition shows (marker : string) (w : world) (args : Namespace)
  (cli_args : list string) (i : Z) : bool :=
  contains marker (stdout (outcome w args cli_args i)).

Definition exits_zero (w : world) (args : Namespace) (cli_args : list string)
  (i : Z) : bool :=
  returncode (outcome w args cli_args i) =? 0.

(** How many of the iterations [indices] satisfy [f]. *)
Definition count (f : Z -> bool) (indices : list Z) : Z :=
  Z.of_nat (length (List.filter f indices)).

(** How many values of a list lie strictly below [v], and how many at or
    below it. *)
Definition below (v : Q) (l : list Q) : nat :=
  length (List.filter (fun y => Qlt_bool y v) l).

Definition upto (v : Q) (l : list Q) : nat :=
  length (List.filter (fun y => Qle_bool y v) l).

(** A string without an opening brace. *)
Definition no_brace (s : string) : bool := negb (contains "{" s).

End CliLoopTest.

(** ** The design document's wording *)

Module Design.

(** Section 4.2: the display status by fixed precedence. *)
Definition display_status (timed_out rate_limited : bool) (exit_code : Z)
  : string :=
  if timed_out then "TIMEOUT"
  else if rate_limited then "RATE_LIMIT"
  else if exit_code =? 0 then "OK"
  else "FAIL".

(** Section 4.2: what the crash tally counts. *)
Definition is_crash (timed_out : bool) (exit_code : Z) : bool :=
  timed_out || negb (exit_code =? 0).

(** Section 4.3: a rank clamped to [[1, count]], and the nearest rank,
    [ceiling(p * count)] clamped so, with the product taken in the reals. *)
Definition clamped_rank (c count : Z) : Z := Z.max 1 (Z.min c count).

Definition nearest_rank (p : Q) (count : Z) : Z :=
  clamped_rank (Qceiling (p * inject_Z count)) count.

End Design.

(** * Properties *)

Import MockBinance Binary64 CliLoopTest.

(** ** The fault-injection service *)

Section Registry.

Implicit Types (reg : gmap string Z) (key : string) (r : request).
Implicit Types (reqs : list (Z * request)).

Lemma get_attempt_eq key reg :
  get_attempt key reg
  = (counter key reg + 1, <[key := counter key reg + 1]> reg).
Proof.
  unfold get_attempt, counter. by rewrite lookup_total_insert_eq.
Qed.

Lemma counter_insert_eq key reg v : counter key (<[key := v]> reg) = v.
Proof. unfold counter. by rewrite lookup_insert_eq. Qed.

Lemma counter_insert_ne key key' reg v :
  key ≠ key' → counter key' (<[key := v]> reg) = counter key' reg.
Proof. intros Hne. unfold counter. by rewrite lookup_insert_ne. Qed.

(** What each stateful handler does, as a function of its own counter. *)
Lemma mock_time_eq now_ms reg :
  mock_time now_ms reg =
  let attempt := counter "time" reg + 1 in
  if attempt <? 4
  then (Response 503 (JDict [("msg", JStr "Server Busy")]),
        <["time" := attempt]> reg)
  else (Response 200 (JDict [("serverTime", JInt now_ms)]),
        <["time" := 0]> reg).
Proof.
  unfold mock_time, reset_attempt. rewrite get_attempt_eq. cbv zeta.
  destruct (_ <? 4); [done|]. by rewrite insert_insert_eq.
Qed.

Lemma mock_ticker_eq now_ms reg :
  mock_ticker now_ms reg =
  let attempt := counter "ticker" reg + 1 in
  if attempt =? 4
  then (Response 429 (JDict [("code", JInt (-1003));
                             ("msg", JStr "Too many requests")]),
        <["ticker" := attempt]> reg)
  else (Response 200 (JDict [("symbol", JStr "BTCUSDT");
                             ("price", JStr "60000.00")]),
        <["ticker" := 0]> reg).
Proof.
  unfold mock_ticker, reset_attempt. rewrite get_attempt_eq. cbv zeta.
  destruct (_ =? 4); [done|]. by rewrite insert_insert_eq.
Qed.

Lemma mock_place_order_eq now_ms reg :
  mock_place_order now_ms reg =
  let attempt := counter "place_order" reg + 1 in
  if attempt <=? 4
  then (Response 418 (JDict [("code", JInt (-1003));
                             ("msg", JStr "IP Banned")]),
        <["place_order" := attempt]> reg)
  else (Response 200 (JDict [("symbol", JStr "BTCUSDT");
                             ("orderId", JInt 1234567);
                             ("clientOrderId", JStr "");
                             ("transactTime", JInt now_ms);
                             ("price", JStr "55000.00");
                             ("origQty", JStr "0.1");
                             ("executedQty", JStr "0.0");
                             ("status", JStr "NEW")]),
        <["place_order" := 0]> reg).
Proof.
  unfold mock_place_order, reset_attempt. rewrite get_attempt_eq. cbv zeta.
  destruct (_ <=? 4); [done|]. by rewrite insert_insert_eq.
Qed.

(** A handler writes at most the entry of its own key. *)
Lemma dispatch_writes r now_ms reg :
  (dispatch r now_ms reg).2 =
  match counter_key r with
  | Some key => <[key := counter key (dispatch r now_ms reg).2]> reg
  | None => reg
  end.
Proof.
  destruct r; simpl; try done.
  - rewrite mock_time_eq. cbv zeta.
    destruct (_ <? 4); simpl; by rewrite counter_insert_eq.
  - rewrite mock_ticker_eq. cbv zeta.
    destruct (_ =? 4); simpl; by rewrite counter_insert_eq.
  - rewrite mock_place_order_eq. cbv zeta.
    destruct (_ <=? 4); simpl; by rewrite counter_insert_eq.
Qed.

Lemma dispatch_frame r now_ms reg key :
  counter_key r ≠ Some key →
  (dispatch r now_ms reg).2 !! key = reg !! key.
Proof.
  intros Hne. rewrite dispatch_writes.
  destruct (counter_key r) as [key'|]; [|done].
  apply lookup_insert_ne. congruence.
Qed.

Lemma dispatch_counter_frame r now_ms reg key :
  counter_key r ≠ Some key →
  counter key (dispatch r now_ms reg).2 = counter key reg.
Proof. intros Hne. unfold counter. by rewrite dispatch_frame. Qed.

(** A handler's response and its own next counter depend on the registry
    through its own counter only. *)
Lemma dispatch_reads r now_ms reg reg' :
  (∀ key, counter_key r = Some key → reg' !! key = reg !! key) →
  (dispatch r now_ms reg').1 = (dispatch r now_ms reg).1
  ∧ ∀ key, counter_key r = Some key →
      (dispatch r now_ms reg').2 !! key = (dispatch r now_ms reg).2 !! key.
Proof.
  intros Hsame. destruct r; simpl in *.
  - specialize (Hsame "time" eq_refl).
    rewrite !mock_time_eq. unfold counter. rewrite Hsame. cbv zeta.
    destruct (_ <? 4); simpl; (split; [done|]); intros key [= <-];
      by rewrite !lookup_insert_eq.
  - split; [done|]. intros key [=].
  - specialize (Hsame "ticker" eq_refl).
    rewrite !mock_ticker_eq. unfold counter. rewrite Hsame. cbv zeta.
    destruct (_ =? 4); simpl; (split; [done|]); intros key [= <-];
      by rewrite !lookup_insert_eq.
  - split; [done|]. intros key [=].
  - specialize (Hsame "place_order" eq_refl).
    rewrite !mock_place_order_eq. unfold counter. rewrite Hsame. cbv zeta.
    destruct (_ <=? 4); simpl; (split; [done|]); intros key [= <-];
      by rewrite !lookup_insert_eq.
Qed.

(** Serving a sequence and then one more request. *)
Lemma serve_snoc reg reqs now_ms r :
  serve reg (reqs ++ [(now_ms, r)]) =
  ((serve reg reqs).1 ++ [(dispatch r now_ms (serve reg reqs).2).1],
   (dispatch r now_ms (serve reg reqs).2).2).
Proof.
  revert reg. induction reqs as [|[t r'] reqs IH]; intros reg; simpl.
  - by destruct (dispatch r now_ms reg).
  - destruct (dispatch r' t reg) as [resp reg1]. rewrite IH.
    by destruct (serve reg1 reqs).
Qed.

Lemma calls_to_snoc key reqs now_ms r :
  calls_to key (reqs ++ [(now_ms, r)]) =
  calls_to key reqs + (if bool_decide (counter_key r = Some key) then 1 else 0).
Proof.
  unfold calls_to. rewrite List.filter_app, length_app. simpl.
  destruct (bool_decide _); simpl; lia.
Qed.

Lemma calls_to_nonneg key reqs : 0 ≤ calls_to key reqs.
Proof. unfold calls_to. lia. Qed.

End Registry.

(** *** The counters along any sequence of requests *)

Section Cycles.

Implicit Types (reqs : list (Z * request)).

(** The time counter is the number of time calls so far, modulo 4. *)
Lemma time_counter_mod reqs :
  counter "time" (serve attempt_registry reqs).2 = calls_to "time" reqs mod 4.
Proof.
  induction reqs as [|[now_ms r] reqs IH] using rev_ind; [done|].
  pose proof (calls_to_nonneg "time" reqs) as Hn.
  rewrite serve_snoc, calls_to_snoc. cbn [snd].
  destruct r;
    try (rewrite dispatch_counter_frame by (simpl; congruence);
         rewrite IH; simpl; f_equal; lia).
  simpl.
  rewrite mock_time_eq, IH. cbv zeta.
  destruct (Z.ltb_spec (calls_to "time" reqs mod 4 + 1) 4); simpl;
    rewrite counter_insert_eq; Z.div_mod_to_equations; lia.
Qed.

(** The order counter is the number of order calls so far, modulo 5. *)
Lemma place_order_counter_mod reqs :
  counter "place_order" (serve attempt_registry reqs).2
  = calls_to "place_order" reqs mod 5.
Proof.
  induction reqs as [|[now_ms r] reqs IH] using rev_ind; [done|].
  pose proof (calls_to_nonneg "place_order" reqs) as Hn.
  rewrite serve_snoc, calls_to_snoc. cbn [snd].
  destruct r;
    try (rewrite dispatch_counter_frame by (simpl; congruence);
         rewrite IH; simpl; f_equal; lia).
  simpl.
  rewrite mock_place_order_eq, IH. cbv zeta.
  destruct (Z.leb_spec (calls_to "place_order" reqs mod 5 + 1) 4); simpl;
    rewrite counter_insert_eq; Z.div_mod_to_equations; lia.
Qed.

(** The ticker counter never leaves 0: attempt 1 is not attempt 4, so the
    handler resets the counter at every call. *)
Lemma ticker_counter_zero reqs :
  counter "ticker" (serve attempt_registry reqs).2 = 0.
Proof.
  induction reqs as [|[now_ms r] reqs IH] using rev_ind; [done|].
  rewrite serve_snoc. cbn [snd].
  destruct r;
    try (by rewrite dispatch_counter_frame by (simpl; congruence)).
  simpl.
  rewrite mock_ticker_eq, IH. simpl. by rewrite counter_insert_eq.
Qed.

End Cycles.

(** *** The endpoints, call by call *)

(** C1 (the code departs from the claim).  Four ticker calls in a row on
    the fresh registry: the claim has the fourth answer with status 429 and
    the counter reset there; the handler answers all four with status 200
    and the fixed price, and the counter is 0 after each of them, because
    [reset_attempt] sits on the success path and attempt 4 is never
    reached. *)
Theorem ticker_fourth_call_is_200 (t1 t2 t3 t4 : Z) :
  let calls := [(t1, GetTicker); (t2, GetTicker); (t3, GetTicker);
                (t4, GetTicker)] in
  map status (serve attempt_registry calls).1 = [200; 200; 200; 200]
  ∧ map (fun resp => field "price" (body resp))
        (serve attempt_registry calls).1
    = [Some (JStr "60000.00"); Some (JStr "60000.00");
       Some (JStr "60000.00"); Some (JStr "60000.00")]
  ∧ counter "ticker" (serve attempt_registry calls).2 = 0
  ∧ counter "ticker" (serve attempt_registry (firstn 3 calls)).2 = 0.
Proof. by vm_compute. Qed.

(** The same at any point of any run: a ticker call always succeeds. *)
Lemma ticker_always_200 (reqs : list (Z * request)) (now_ms : Z) :
  status (dispatch GetTicker now_ms (serve attempt_registry reqs).2).1 = 200.
Proof.
  simpl. rewrite mock_ticker_eq, ticker_counter_zero. reflexivity.
Qed.

(** C2 (the code departs from the claim).  After one ticker call, the
    first of its cycle of 4, the claim has the ticker counter at
    [1 mod 4 = 1]; the handler leaves it at 0.  (For the time and the order
    endpoint the counter is the number of calls modulo 4 and 5:
    [time_counter_mod], [place_order_counter_mod].) *)
Theorem ticker_counter_after_first_call (t : Z) :
  let calls := [(t, GetTicker)] in
  counter "ticker" (serve attempt_registry calls).2 = 0
  ∧ calls_to "ticker" calls mod 4 = 1.
Proof. by vm_compute. Qed.

(** C7.  After any requests to the fresh service, of which [n] went to the
    time endpoint, the next time call is call [k = n + 1] of that endpoint:
    it answers 503 unless [k] is a multiple of 4, and then 200 with the
    clock reading as [serverTime]; so calls 1, 2, 3 are 503, call 4 is 200
    and call 5 is 503 again.  Likewise the order endpoint answers 418
    unless its call number is a multiple of 5, and then 200 with
    [orderId] 1234567. *)
Theorem time_and_order_cycles (reqs : list (Z * request)) (now_ms : Z) :
  let reg := (serve attempt_registry reqs).2 in
  let k := calls_to "time" reqs + 1 in
  let j := calls_to "place_order" reqs + 1 in
  let time_resp := (dispatch GetTime now_ms reg).1 in
  let order_resp := (dispatch PostOrder now_ms reg).1 in
  (if k mod 4 =? 0
   then time_resp = Response 200 (JDict [("serverTime", JInt now_ms)])
   else status time_resp = 503)
  ∧ (if j mod 5 =? 0
     then status order_resp = 200
          ∧ field "orderId" (body order_resp) = Some (JInt 1234567)
     else status order_resp = 418).
Proof.
  cbv zeta. simpl dispatch.
  pose proof (calls_to_nonneg "time" reqs).
  pose proof (calls_to_nonneg "place_order" reqs).
  rewrite mock_time_eq, mock_place_order_eq. cbv zeta.
  rewrite time_counter_mod, place_order_counter_mod. split.
  - destruct (Z.eqb_spec ((calls_to "time" reqs + 1) mod 4) 0);
      destruct (Z.ltb_spec (calls_to "time" reqs mod 4 + 1) 4);
      try reflexivity; exfalso; Z.div_mod_to_equations; lia.
  - destruct (Z.eqb_spec ((calls_to "place_order" reqs + 1) mod 5) 0);
      destruct (Z.leb_spec (calls_to "place_order" reqs mod 5 + 1) 4);
      try (split; reflexivity); try reflexivity;
      exfalso; Z.div_mod_to_equations; lia.
Qed.

(** The first calls of C7, spelled out. *)
Example time_calls_1_to_5 (t1 t2 t3 t4 t5 : Z) :
  (serve attempt_registry
     [(t1, GetTime); (t2, GetTime); (t3, GetTime); (t4, GetTime);
      (t5, GetTime)]).1
  = [Response 503 (JDict [("msg", JStr "Server Busy")]);
     Response 503 (JDict [("msg", JStr "Server Busy")]);
     Response 503 (JDict [("msg", JStr "Server Busy")]);
     Response 200 (JDict [("serverTime", JInt t4)]);
     Response 503 (JDict [("msg", JStr "Server Busy")])].
Proof. by vm_compute. Qed.

Example order_calls_1_to_6 (t : Z) :
  map status
    (serve attempt_registry
       [(t, PostOrder); (t, PostOrder); (t, PostOrder); (t, PostOrder);
        (t, PostOrder); (t, PostOrder)]).1
  = [418; 418; 418; 418; 200; 418].
Proof. by vm_compute. Qed.



(** ** Rounding to binary64 *)

Section Rounding.

Implicit Types (q a k : Q) (z e b : Z).

Lemma round_proper q q' : (q == q')%Q → round q = round q'.
Proof. intros Heq. unfold round. by rewrite (Qred_complete q q' Heq). Qed.

Lemma pow2_pos e : (0 < pow2 e)%Q.
Proof. by apply Qpower_0_lt. Qed.

Lemma pow2_nonneg_exponent e : 0 ≤ e → (pow2 e == inject_Z (2 ^ e))%Q.
Proof. intros He. unfold pow2. by rewrite Zpower_Qpower. Qed.

Lemma pow2_add e e' : (pow2 (e + e') == pow2 e * pow2 e')%Q.
Proof. unfold pow2. by apply Qpower_plus. Qed.

Lemma pow2_mono e e' : e ≤ e' → (pow2 e <= pow2 e')%Q.
Proof. intros Hle. unfold pow2. by apply Qpower_le_compat_l. Qed.

(** An integer is its own nearest integer. *)
Lemma round_half_even_int k z :
  (k == inject_Z z)%Q → round_half_even k = z.
Proof.
  intros Hk. unfold round_half_even.
  rewrite (Qfloor_comp k (inject_Z z) Hk), Qfloor_Z.
  assert (k - inject_Z z == 0)%Q as Hzero by (rewrite Hk; ring).
  by rewrite (Qcompare_comp _ _ Hzero (1 # 2) (1 # 2) (Qeq_refl _)).
Qed.

(** The nearest integer is at most one above. *)
Lemma round_half_even_le k : (inject_Z (round_half_even k) <= k + 1)%Q.
Proof.
  unfold round_half_even. pose proof (Qfloor_le k) as Hfloor.
  assert (inject_Z (Qfloor k + 1) == inject_Z (Qfloor k) + 1)%Q as Hsucc
    by (by rewrite inject_Z_plus).
  destruct (Qcompare _ _); [destruct (Z.even _)|..];
    rewrite ?Hsucc; lra.
Qed.

Lemma round_half_even_nonneg k : (0 <= k)%Q → 0 ≤ round_half_even k.
Proof.
  intros Hk. unfold round_half_even.
  assert (0 ≤ Qfloor k).
  { rewrite <- (Qfloor_Z 0). by apply Qfloor_resp_le. }
  destruct (Qcompare _ _); [destruct (Z.even _)|..]; lia.
Qed.

(** [ilog2] of a positive integer is its binary logarithm. *)
Lemma ilog2_int z : 0 < z → ilog2 (inject_Z z) = Z.log2 z.
Proof.
  intros Hz. unfold ilog2. simpl. rewrite Z.sub_0_r.
  destruct (Z.log2_spec z Hz) as [Hlo _].
  assert (Qle_bool (pow2 (Z.log2 z)) (inject_Z z) = true) as ->; [|done].
  apply Qle_bool_iff. rewrite pow2_nonneg_exponent by apply Z.log2_nonneg.
  by rewrite <- Zle_Qle.
Qed.

(** [ilog2] of a number below [2^k] is at most [k]. *)
Lemma ilog2_upper a (b : Z) :
  (0 < a)%Q → 0 ≤ b → (a < inject_Z (2 ^ b))%Q → ilog2 a ≤ b.
Proof.
  intros Ha Hk Hlt. unfold ilog2.
  assert (Z.log2 (Qnum a) - Z.log2 (Z.pos (Qden a)) ≤ b) as He0.
  { destruct a as [n d]. unfold Qlt in *. cbn [Qnum Qden inject_Z] in *.
    rewrite Z.mul_1_r in *.
    destruct (Z.log2_spec (Z.pos d)) as [_ Hd]; [lia|].
    assert (n < 2 ^ (b + Z.succ (Z.log2 (Z.pos d)))) as Hn.
    { rewrite Z.pow_add_r by (pose proof (Z.log2_nonneg (Z.pos d)); lia).
      assert (0 < 2 ^ b) by (by apply Z.pow_pos_nonneg). nia. }
    apply Z.log2_lt_pow2 in Hn; lia. }
  destruct (Qle_bool _ _); lia.
Qed.

(** The result of rounding a non-zero number, with the cases spelled
    out. *)
Lemma round_nonzero q :
  ¬ (q == 0)%Q →
  let a := Qabs (Qred q) in
  let ulp := pow2 (Z.max (ilog2 a) (-1022) - 52) in
  let r := (inject_Z (round_half_even (a / ulp)) * ulp)%Q in
  round q
  = if Qle_bool (pow2 1024) r then Infinite (negative (Qred q))
    else Finite (Qred (if negative (Qred q) then - r else r)).
Proof.
  intros Hq. cbv zeta. unfold round. cbv zeta.
  destruct (Qcompare (Qred q) 0) eqn:Hcmp; [|reflexivity..].
  apply Qeq_alt in Hcmp. rewrite Qred_correct in Hcmp. by destruct Hq.
Qed.

(** A number below [2^1022] in absolute value rounds to a finite float. *)
Lemma round_finite q :
  (Qabs q < inject_Z (2 ^ 1022))%Q → ∃ r, round q = Finite r.
Proof.
  intros Hq.
  destruct (Qeq_dec q 0) as [Hzero|Hnz].
  { exists 0%Q. by rewrite (round_proper q 0 Hzero). }
  rewrite round_nonzero by done. cbv zeta.
  set (a := Qabs (Qred q)).
  assert (a == Qabs q)%Q as Ha by (subst a; by rewrite Qred_correct).
  assert (0 < a)%Q as Hpos.
  { rewrite Ha. clear -Hnz. destruct q as [n d].
    unfold Qeq in Hnz. unfold Qlt, Qabs. simpl in *. lia. }
  set (e := Z.max (ilog2 a) (-1022)).
  assert (e ≤ 1022) as He.
  { assert (a < inject_Z (2 ^ 1022))%Q as Hbound by (by rewrite Ha).
    pose proof (ilog2_upper a 1022 Hpos ltac:(lia) Hbound). lia. }
  set (ulp := pow2 (e - 52)).
  pose proof (pow2_pos (e - 52)) as Hulp. fold ulp in Hulp.
  set (r := (inject_Z (round_half_even (a / ulp)) * ulp)%Q).
  assert (r <= a + ulp)%Q as Hr.
  { subst r. pose proof (round_half_even_le (a / ulp)) as Hm.
    apply (Qmult_le_compat_r _ _ ulp) in Hm; [|by apply Qlt_le_weak].
    eapply Qle_trans; [exact Hm|].
    assert ((a / ulp + 1) * ulp == a + ulp)%Q as ->; [|apply Qle_refl].
    field. intros Hz. rewrite Hz in Hulp. by apply Qlt_irrefl in Hulp. }
  assert (ulp <= pow2 970)%Q as Hulp970 by (apply pow2_mono; lia).
  assert (r < pow2 1024)%Q as Hsmall.
  { eapply Qle_lt_trans; [exact Hr|]. rewrite Ha.
    eapply Qlt_le_trans.
    - apply Qplus_lt_le_compat; [exact Hq | exact Hulp970].
    - rewrite !pow2_nonneg_exponent by lia. rewrite <- inject_Z_plus.
      rewrite <- Zle_Qle. by vm_compute. }
  destruct (Qle_bool (pow2 1024) r) eqn:Hbig; [|by eexists].
  apply Qle_bool_iff in Hbig. by apply Qlt_not_le in Hsmall.
Qed.

(** A non-negative integer below [2^53] is a float. *)
Lemma round_int z :
  0 ≤ z < 2 ^ 53 → round (inject_Z z) = Finite (inject_Z z).
Proof.
  intros [Hlo Hhi].
  destruct (Z.eq_dec z 0) as [->|Hnz]; [reflexivity|].
  assert (0 < z) as Hz by lia.
  assert (Qred (inject_Z z) = inject_Z z) as Hred.
  { apply Qcanon.Qred_identity. simpl. apply Z.gcd_1_r. }
  rewrite round_nonzero.
  2: { intros Heq. unfold Qeq in Heq. simpl in Heq. lia. }
  cbv zeta. rewrite Hred.
  assert (Qabs (inject_Z z) = inject_Z z) as ->.
  { unfold Qabs, inject_Z. f_equal. lia. }
  assert (negative (inject_Z z) = false) as ->.
  { unfold negative, Qcompare. cbn [Qnum Qden inject_Z].
    rewrite Z.mul_1_r. change (0 * 1) with 0.
    by destruct (Z.compare_spec z 0); try lia. }
  rewrite ilog2_int by done.
  set (L := Z.log2 z).
  assert (0 ≤ L < 53) as HL.
  { split; [apply Z.log2_nonneg|]. by apply Z.log2_lt_pow2. }
  rewrite Z.max_l by lia.
  set (ulp := pow2 (L - 52)).
  assert (ulp * pow2 (52 - L) == 1)%Q as Hinv.
  { subst ulp. rewrite <- pow2_add.
    replace (L - 52 + (52 - L)) with 0 by lia. reflexivity. }
  pose proof (pow2_pos (L - 52)) as Hulp. fold ulp in Hulp.
  assert (inject_Z z / ulp == inject_Z (z * 2 ^ (52 - L)))%Q as Hk.
  { rewrite inject_Z_mult, <- pow2_nonneg_exponent by lia.
    apply Qmult_inj_r with ulp.
    - intros Hz0. rewrite Hz0 in Hulp. by apply Qlt_irrefl in Hulp.
    - rewrite <- Qmult_assoc, (Qmult_comm (pow2 _)), Hinv. field.
      intros Hz0. rewrite Hz0 in Hulp. by apply Qlt_irrefl in Hulp. }
  rewrite (round_half_even_int _ _ Hk).
  assert (inject_Z (z * 2 ^ (52 - L)) * ulp == inject_Z z)%Q as Hr.
  { rewrite inject_Z_mult, <- pow2_nonneg_exponent by lia.
    rewrite <- Qmult_assoc, (Qmult_comm (pow2 _)), Hinv. ring. }
  assert (Qle_bool (pow2 1024) (inject_Z (z * 2 ^ (52 - L)) * ulp) = false)
    as ->.
  { destruct (Qle_bool _ _) eqn:Hbig; [|done].
    apply Qle_bool_iff in Hbig. rewrite Hr in Hbig.
    rewrite pow2_nonneg_exponent in Hbig by lia.
    rewrite <- Zle_Qle in Hbig.
    assert (2 ^ 53 ≤ 2 ^ 1024) by (by vm_compute). lia. }
  by rewrite (Qred_complete _ _ Hr), Hred.
Qed.

(** *** Rounding is monotone on the positive numbers *)

Lemma pow2_le_frac (x y n : Z) (d : positive) :
  0 ≤ x → 0 ≤ y → 2 ^ x * Z.pos d ≤ n * 2 ^ y → (pow2 (x - y) <= n # d)%Q.
Proof.
  intros Hx Hy Hle.
  apply (Qmult_le_r _ _ (pow2 y)); [apply pow2_pos|].
  rewrite <- pow2_add. replace (x - y + y) with x by lia.
  rewrite !pow2_nonneg_exponent by done.
  unfold Qle, Qmult, inject_Z. cbn [Qnum Qden]. lia.
Qed.

Lemma pow2_gt_frac (x y n : Z) (d : positive) :
  0 ≤ x → 0 ≤ y → n * 2 ^ y < 2 ^ x * Z.pos d → (n # d < pow2 (x - y))%Q.
Proof.
  intros Hx Hy Hlt.
  apply (Qmult_lt_r _ _ (pow2 y)); [apply pow2_pos|].
  rewrite <- pow2_add. replace (x - y + y) with x by lia.
  rewrite !pow2_nonneg_exponent by done.
  unfold Qlt, Qmult, inject_Z. cbn [Qnum Qden]. lia.
Qed.

(** [ilog2 a] is the exponent of the binade of [a]. *)
Lemma ilog2_spec a :
  (0 < a)%Q → (pow2 (ilog2 a) <= a)%Q ∧ (a < pow2 (ilog2 a + 1))%Q.
Proof.
  intros Ha. unfold ilog2. destruct a as [n d]. cbn [Qnum Qden].
  assert (0 < n) as Hn by (unfold Qlt in Ha; simpl in Ha; lia).
  destruct (Z.log2_spec n Hn) as [Hn1 Hn2].
  destruct (Z.log2_spec (Z.pos d)) as [Hd1 Hd2]; [lia|].
  pose proof (Z.log2_nonneg n) as Hln.
  pose proof (Z.log2_nonneg (Z.pos d)) as Hld.
  set (ln := Z.log2 n) in *. set (ld := Z.log2 (Z.pos d)) in *.
  assert (0 < 2 ^ ln) by (by apply Z.pow_pos_nonneg).
  assert (0 < 2 ^ ld) by (by apply Z.pow_pos_nonneg).
  rewrite Z.pow_succ_r in Hn2, Hd2 by done.
  destruct (Qle_bool (pow2 (ln - ld)) (n # d)) eqn:Hb.
  - apply Qle_bool_iff in Hb. split; [done|].
    replace (ln - ld + 1) with (ln + 1 - ld) by lia.
    apply pow2_gt_frac; [lia..|].
    rewrite Z.pow_add_r by lia. change (2 ^ 1) with 2. nia.
  - split.
    + replace (ln - ld - 1) with (ln - (ld + 1)) by lia.
      apply pow2_le_frac; [lia..|].
      rewrite Z.pow_add_r by lia. change (2 ^ 1) with 2. nia.
    + replace (ln - ld - 1 + 1) with (ln - ld) by lia.
      apply Qnot_le_lt. intros Hle. apply Qle_bool_iff in Hle. congruence.
Qed.

Lemma pow2_lt_exponent e e' : (pow2 e < pow2 e')%Q → e < e'.
Proof.
  intros Hlt. destruct (Z_lt_le_dec e e') as [|Hle]; [done|].
  apply pow2_mono in Hle. by apply Qlt_not_le in Hlt.
Qed.

Lemma ilog2_mono a a' : (0 < a)%Q → (a <= a')%Q → ilog2 a ≤ ilog2 a'.
Proof.
  intros Ha Hle.
  assert (0 < a')%Q as Ha' by (by apply Qlt_le_trans with a).
  destruct (ilog2_spec a Ha) as [Ha1 _].
  destruct (ilog2_spec a' Ha') as [_ Ha2].
  assert (ilog2 a < ilog2 a' + 1); [|lia].
  apply pow2_lt_exponent.
  apply Qle_lt_trans with a; [done|]. by apply Qle_lt_trans with a'.
Qed.

Lemma round_half_even_mono k k' :
  (k <= k')%Q → round_half_even k ≤ round_half_even k'.
Proof.
  intros Hk. unfold round_half_even.
  pose proof (Qfloor_resp_le _ _ Hk) as Hfloor.
  pose proof (Qfloor_le k) as Hk1. pose proof (Qlt_floor k) as Hk2.
  pose proof (Qfloor_le k') as Hk'1. pose proof (Qlt_floor k') as Hk'2.
  destruct (Z.eq_dec (Qfloor k) (Qfloor k')) as [Heq|Hne].
  - rewrite <- Heq in *.
    destruct (Qcompare_spec (k - inject_Z (Qfloor k)) (1 # 2));
      destruct (Qcompare_spec (k' - inject_Z (Qfloor k)) (1 # 2));
      destruct (Z.even (Qfloor k)); try lia; lra.
  - assert (Qfloor k + 1 ≤ Qfloor k') by lia.
    destruct (Qcompare _ _); destruct (Qcompare _ _);
      repeat destruct (Z.even _); lia.
Qed.

(** The finite result of rounding a positive number: a multiple of the
    unit of its binade. *)
Lemma round_positive_finite q r :
  (0 < q)%Q → round q = Finite r →
  ∃ a, (a == q)%Q
       ∧ (r == inject_Z (round_half_even
                           (a / pow2 (Z.max (ilog2 a) (-1022) - 52)))
               * pow2 (Z.max (ilog2 a) (-1022) - 52))%Q.
Proof.
  intros Hq Hr.
  rewrite round_nonzero in Hr.
  2: { intros Hz. rewrite Hz in Hq. by apply Qlt_irrefl in Hq. }
  cbv zeta in Hr.
  assert (negative (Qred q) = false) as Hsign.
  { unfold negative.
    rewrite (Qcompare_comp _ q (Qred_correct q) 0%Q 0%Q (Qeq_refl 0)).
    assert ((q ?= 0)%Q = Gt) as -> by (by apply Qgt_alt). done. }
  rewrite Hsign in Hr.
  assert (Qabs (Qred q) == q)%Q as Ha.
  { rewrite Qred_correct. apply Qabs_pos. by apply Qlt_le_weak. }
  exists (Qabs (Qred q)). split; [done|].
  destruct (Qle_bool _ _); [done|]. injection Hr as <-.
  apply Qred_correct.
Qed.

Lemma round_mono_positive q q' r r' :
  (0 < q)%Q → (q <= q')%Q → round q = Finite r → round q' = Finite r' →
  (r <= r')%Q.
Proof.
  intros Hq Hle Hr Hr'.
  assert (0 < q')%Q as Hq' by (by apply Qlt_le_trans with q).
  destruct (round_positive_finite q r Hq Hr) as (a & Ha & ->).
  destruct (round_positive_finite q' r' Hq' Hr') as (a' & Ha' & ->).
  assert (0 < a)%Q as Hapos by (by rewrite Ha).
  assert (a <= a')%Q as Hab by (by rewrite Ha, Ha').
  assert (0 < a')%Q as Hbpos by (by rewrite Ha').
  pose proof (ilog2_mono a a' Hapos Hab) as Hlog.
  destruct (ilog2_spec a Hapos) as [_ Ha2].
  destruct (ilog2_spec a' Hbpos) as [Hb1 _].
  set (e := Z.max (ilog2 a) (-1022)). set (e' := Z.max (ilog2 a') (-1022)).
  pose proof (pow2_pos (e - 52)) as Hulp.
  pose proof (pow2_pos (e' - 52)) as Hulp'.
  destruct (Z.eq_dec e e') as [Heq|Hne].
  - rewrite <- Heq.
    apply Qmult_le_compat_r; [|by apply Qlt_le_weak].
    rewrite <- Zle_Qle. apply round_half_even_mono.
    apply Qmult_le_compat_r; [done|].
    apply Qlt_le_weak, Qinv_lt_0_compat, Hulp.
  - assert (e < e') as Hlt by lia.
    assert (e' = ilog2 a') as He' by lia.
    apply Qle_trans with (pow2 (e + 1)); [|apply Qle_trans with (pow2 e')].
    + assert (pow2 (e + 1) == inject_Z (2 ^ 53) * pow2 (e - 52))%Q as ->.
      { rewrite <- pow2_nonneg_exponent by lia. rewrite <- pow2_add.
        by replace (53 + (e - 52)) with (e + 1) by lia. }
      apply Qmult_le_compat_r; [|by apply Qlt_le_weak].
      rewrite <- Zle_Qle.
      rewrite <- (round_half_even_int (inject_Z (2 ^ 53)) (2 ^ 53))
        by reflexivity.
      apply round_half_even_mono.
      apply Qle_shift_div_r; [done|].
      rewrite <- pow2_nonneg_exponent by lia. rewrite <- pow2_add.
      replace (53 + (e - 52)) with (e + 1) by lia.
      apply Qlt_le_weak, Qlt_le_trans with (pow2 (ilog2 a + 1)); [done|].
      apply pow2_mono. lia.
    + apply pow2_mono. lia.
    + assert (pow2 e' == inject_Z (2 ^ 52) * pow2 (e' - 52))%Q as ->.
      { rewrite <- pow2_nonneg_exponent by lia. rewrite <- pow2_add.
        by replace (52 + (e' - 52)) with e' by lia. }
      apply Qmult_le_compat_r; [|by apply Qlt_le_weak].
      rewrite <- Zle_Qle.
      rewrite <- (round_half_even_int (inject_Z (2 ^ 52)) (2 ^ 52)) at 1
        by reflexivity.
      apply round_half_even_mono.
      apply Qle_shift_div_l; [done|].
      rewrite <- pow2_nonneg_exponent by lia. rewrite <- pow2_add.
      replace (52 + (e' - 52)) with e' by lia.
      by rewrite He'.
Qed.

(** A number that is not positive does not round to a positive one. *)
Lemma round_nonpositive q r : (q <= 0)%Q → round q = Finite r → (r <= 0)%Q.
Proof.
  intros Hq Hr.
  destruct (Qeq_dec q 0) as [Hzero|Hnz].
  { rewrite (round_proper q 0 Hzero) in Hr. injection Hr as <-.
    apply Qle_refl. }
  rewrite round_nonzero in Hr by done. cbv zeta in Hr.
  assert (negative (Qred q) = true) as Hsign.
  { unfold negative.
    rewrite (Qcompare_comp _ q (Qred_correct q) 0%Q 0%Q (Qeq_refl 0)).
    assert (q < 0)%Q as Hlt.
    { apply Qle_lteq in Hq as [Hlt|Heq]; [done | by destruct Hnz]. }
    assert ((q ?= 0)%Q = Lt) as -> by (by apply Qlt_alt). done. }
  rewrite Hsign in Hr.
  destruct (Qle_bool _ _); [done|]. injection Hr as <-.
  rewrite Qred_correct.
  set (a := Qabs (Qred q)).
  set (ulp := pow2 (Z.max (ilog2 a) (-1022) - 52)).
  pose proof (pow2_pos (Z.max (ilog2 a) (-1022) - 52)) as Hulp.
  fold ulp in Hulp.
  assert (0 <= a / ulp)%Q as Hk.
  { apply Qle_shift_div_l; [done|]. rewrite Qmult_0_l. apply Qabs_nonneg. }
  apply round_half_even_nonneg in Hk.
  assert (0 <= inject_Z (round_half_even (a / ulp)))%Q as Hm.
  { change 0%Q with (inject_Z 0). by rewrite <- Zle_Qle. }
  assert (0 <= inject_Z (round_half_even (a / ulp)) * ulp)%Q
    by (apply Qmult_le_0_compat; [done | by apply Qlt_le_weak]).
  lra.
Qed.

(** *** Rounding is symmetric and monotone *)

Lemma Qabs_opp_eq q : Qabs (- q) = Qabs q.
Proof. destruct q as [n d]. unfold Qabs, Qopp. simpl. by rewrite Z.abs_opp. Qed.

Lemma negative_opp q : ¬ (q == 0)%Q → negative (- q) = negb (negative q).
Proof.
  intros Hq. unfold negative, Qcompare. destruct q as [n d].
  unfold Qeq in Hq. simpl in *. rewrite !Z.mul_1_r in *.
  change (0 * Z.pos d) with 0 in *.
  destruct (Z.compare_spec (- n) 0), (Z.compare_spec n 0); simpl; (done || lia).
Qed.

Lemma round_opp q r :
  round q = Finite r → ∃ r', round (- q) = Finite r' ∧ (r' == - r)%Q.
Proof.
  destruct (Qeq_dec q 0) as [Hz|Hnz].
  - rewrite (round_proper q 0 Hz). intros [= <-]. exists 0%Q.
    split; [|reflexivity]. apply (round_proper (- q) 0). by rewrite Hz.
  - assert (¬ (- q == 0)%Q) as Hnz'.
    { intros Hz. apply Hnz. rewrite <- (Qopp_involutive q), Hz. reflexivity. }
    assert (¬ (Qred q == 0)%Q) as Hred by (by rewrite Qred_correct).
    rewrite !round_nonzero by done. cbv zeta.
    rewrite Qred_opp, Qabs_opp_eq, (negative_opp _ Hred).
    set (r0 := (inject_Z _ * _)%Q).
    destruct (Qle_bool _ _); [done|]. intros [= <-].
    eexists. split; [reflexivity|].
    destruct (negative (Qred q)); simpl.
    + rewrite (Qred_correct r0), (Qred_correct (- r0)).
      by rewrite Qopp_involutive.
    + by rewrite (Qred_correct r0), (Qred_correct (- r0)).
Qed.

Lemma round_nonnegative q r : (0 <= q)%Q → round q = Finite r → (0 <= r)%Q.
Proof.
  intros Hq Hr. destruct (round_opp q r Hr) as (r' & Hr' & Heq).
  apply round_nonpositive in Hr'; [|lra]. lra.
Qed.

Lemma round_mono q q' r r' :
  (q <= q')%Q → round q = Finite r → round q' = Finite r' → (r <= r')%Q.
Proof.
  intros Hle Hr Hr'.
  destruct (Qlt_le_dec 0 q) as [Hpos|Hneg].
  { by apply (round_mono_positive q q'). }
  pose proof (round_nonpositive q r Hneg Hr) as Hr0.
  destruct (Qlt_le_dec q' 0) as [Hneg'|Hpos'].
  - destruct (round_opp q r Hr) as (s & Hs & Heq).
    destruct (round_opp q' r' Hr') as (s' & Hs' & Heq').
    assert (s' <= s)%Q; [|lra].
    apply (round_mono_positive (- q') (- q)); [lra|lra|done..].
  - pose proof (round_nonnegative q' r' Hpos' Hr'). lra.
Qed.

(** *** Rounding is to the nearest float

    A finite result is an integer multiple [m * 2^(e - 52)] of the unit of
    a binade [e >= -1022] with [|m| <= 2^53], and lies within half a unit
    of the number rounded. *)

Lemma round_half_even_near k :
  (Qabs (inject_Z (round_half_even k) - k) <= 1 # 2)%Q.
Proof.
  unfold round_half_even.
  pose proof (Qfloor_le k) as Hlo. pose proof (Qlt_floor k) as Hhi.
  rewrite inject_Z_plus in Hhi. change (inject_Z 1) with 1%Q in Hhi.
  apply Qabs_Qle_condition.
  destruct (Qcompare_spec (k - inject_Z (Qfloor k)) (1 # 2)) as [Heq|Hlt|Hgt];
    [destruct (Z.even (Qfloor k))|..];
    rewrite ?inject_Z_plus; change (inject_Z 1) with 1%Q; split; lra.
Qed.

Lemma round_nearest_positive q r :
  (0 < q)%Q → round q = Finite r →
  ∃ m e, -1022 ≤ e ∧ 0 ≤ m ≤ 2 ^ 53
         ∧ (r == inject_Z m * pow2 (e - 52))%Q
         ∧ (Qabs (r - q) <= pow2 (e - 53))%Q.
Proof.
  intros Hq Hr.
  destruct (round_positive_finite q r Hq Hr) as (a & Ha & Hra).
  assert (0 < a)%Q as Hapos by (by rewrite Ha).
  destruct (ilog2_spec a Hapos) as [_ Ha2].
  set (e := Z.max (ilog2 a) (-1022)) in *.
  pose proof (pow2_pos (e - 52)) as Hulp.
  set (ulp := pow2 (e - 52)) in *.
  set (k := (a / ulp)%Q) in *.
  assert (a == k * ulp)%Q as Hak.
  { subst k. field. intros Hz. rewrite Hz in Hulp. by apply Qlt_irrefl in Hulp. }
  assert (0 <= k)%Q as Hk0.
  { subst k. apply Qle_shift_div_l; [done|]. rewrite Qmult_0_l.
    by apply Qlt_le_weak. }
  assert (k <= inject_Z (2 ^ 53))%Q as Hk1.
  { subst k. apply Qle_shift_div_r; [done|].
    rewrite <- pow2_nonneg_exponent by lia. subst ulp. rewrite <- pow2_add.
    replace (53 + (e - 52)) with (e + 1) by lia.
    apply Qlt_le_weak, Qlt_le_trans with (pow2 (ilog2 a + 1)); [done|].
    apply pow2_mono. lia. }
  exists (round_half_even k), e. split; [lia|]. split; [split|split].
  - by apply round_half_even_nonneg.
  - rewrite <- (round_half_even_int (inject_Z (2 ^ 53)) (2 ^ 53)) by reflexivity.
    by apply round_half_even_mono.
  - exact Hra.
  - rewrite Hra, <- Ha, Hak.
    assert (inject_Z (round_half_even k) * ulp - k * ulp
            == (inject_Z (round_half_even k) - k) * ulp)%Q as -> by ring.
    rewrite Qabs_Qmult, (Qabs_pos ulp) by (by apply Qlt_le_weak).
    assert (pow2 (e - 53) == (1 # 2) * ulp)%Q as ->.
    { subst ulp. replace (e - 53) with (-1 + (e - 52)) by lia.
      by rewrite pow2_add. }
    apply Qmult_le_compat_r; [apply round_half_even_near|].
    by apply Qlt_le_weak.
Qed.

Lemma round_nearest q r :
  round q = Finite r →
  ∃ m e, -1022 ≤ e ∧ Z.abs m ≤ 2 ^ 53
         ∧ (r == inject_Z m * pow2 (e - 52))%Q
         ∧ (Qabs (r - q) <= pow2 (e - 53))%Q.
Proof.
  intros Hr.
  destruct (Q_dec q 0) as [[Hneg|Hpos]|Hzero].
  - destruct (round_opp q r Hr) as (r' & Hr' & Heq).
    destruct (round_nearest_positive (- q) r') as (m & e & He & Hm & Hm' & Herr);
      [lra|done|].
    exists (- m), e. split; [done|]. split; [lia|]. split.
    + rewrite inject_Z_opp, <- (Qopp_involutive r), <- Heq, Hm'. ring.
    + assert (r - q == - (r' - - q))%Q as -> by (rewrite Heq; ring).
      by rewrite Qabs_opp.
  - destruct (round_nearest_positive q r Hpos Hr)
      as (m & e & He & Hm & Hm' & Herr).
    exists m, e. split; [done|]. split; [lia|]. done.
  - rewrite (round_proper q 0 Hzero) in Hr. injection Hr as <-.
    exists 0, (-1022). split; [done|]. split; [done|]. split; [reflexivity|].
    rewrite Hzero. apply Qlt_le_weak, pow2_pos.
Qed.

End Rounding.
(** *** Agreement with the IEEE 754 specification of the Standard Library

    [SpecFloat] specifies the binary64 operations on significands and
    exponents.  On the following operands, among them those of the
    percentile examples below, the operations of [Binary64] give the
    floats it specifies. *)

Example fmul_sample_1 :
  fmul (Finite (3602879701896397 # 18014398509481984)) (Finite (5 # 1))%Q
  = of_spec (SFmul 53 1024 (S754_finite false 7205759403792794 (-55)) (S754_finite false 5629499534213120 (-50))).
Proof. by vm_compute. Qed.

Example fmul_sample_2 :
  fmul (Finite (1261007895663739 # 4503599627370496)) (Finite (25 # 1))%Q
  = of_spec (SFmul 53 1024 (S754_finite false 5044031582654956 (-54)) (S754_finite false 7036874417766400 (-48))).
Proof. by vm_compute. Qed.

Example fmul_sample_3 :
  fmul (Finite (4278419646001971 # 4503599627370496)) (Finite (5 # 1))%Q
  = of_spec (SFmul 53 1024 (S754_finite false 8556839292003942 (-53)) (S754_finite false 5629499534213120 (-50))).
Proof. by vm_compute. Qed.

Example fmul_sample_4 :
  fmul (Finite (100000000000000001097906362944045541740492309677311846336810682903157585404911491537163328978494688899061249669721172515611590283743140088328307009198146046031271664502933027185697489699588559043338384466165001178426897626212945177628091195786707458122783970171784415105291802893207873272974885715430223118336 # 1)) (Finite (3 # 1))%Q
  = of_spec (SFmul 53 1024 (S754_finite false 5010420900022432 (971)) (S754_finite false 6755399441055744 (-51))).
Proof. by vm_compute. Qed.

Example fmul_sample_5 :
  fmul (Finite (1 # 2)) (Finite (7 # 1))%Q
  = of_spec (SFmul 53 1024 (S754_finite false 4503599627370496 (-53)) (S754_finite false 7881299347898368 (-50))).
Proof. by vm_compute. Qed.

Example fmul_sample_6 :
  fmul (Finite (-5404319552844595 # 18014398509481984)) (Finite (3602879701896397 # 36028797018963968))%Q
  = of_spec (SFmul 53 1024 (S754_finite true 5404319552844595 (-54)) (S754_finite false 7205759403792794 (-56))).
Proof. by vm_compute. Qed.

Example fmul_sample_7 :
  fmul (Finite (1 # 202402253307310618352495346718917307049556649764142118356901358027430339567995346891960383701437124495187077864316811911389808737385793476867013399940738509921517424276566361364466907742093216341239767678472745068562007483424692698618103355649159556340810056512358769552333414615230502532186327508646006263307707741093494784)) (Finite (1 # 2))%Q
  = of_spec (SFmul 53 1024 (S754_finite false 4503599627370496 (-1126)) (S754_finite false 4503599627370496 (-53))).
Proof. by vm_compute. Qed.

Example fmul_sample_8 :
  fmul (Finite (5060056332682765 # 202402253307310618352495346718917307049556649764142118356901358027430339567995346891960383701437124495187077864316811911389808737385793476867013399940738509921517424276566361364466907742093216341239767678472745068562007483424692698618103355649159556340810056512358769552333414615230502532186327508646006263307707741093494784)) (Finite (5404319552844595 # 18014398509481984))%Q
  = of_spec (SFmul 53 1024 (S754_finite false 5060056332682765 (-1074)) (S754_finite false 5404319552844595 (-54))).
Proof. by vm_compute. Qed.

Example fadd_sample_1 :
  fadd (Finite (3602879701896397 # 36028797018963968)) (Finite (3602879701896397 # 18014398509481984))%Q
  = of_spec (SFadd 53 1024 (S754_finite false 7205759403792794 (-56)) (S754_finite false 7205759403792794 (-55))).
Proof. by vm_compute. Qed.

Example fadd_sample_2 :
  fadd (Finite (1351079888211149 # 4503599627370496)) (Finite (3602879701896397 # 36028797018963968))%Q
  = of_spec (SFadd 53 1024 (S754_finite false 5404319552844596 (-54)) (S754_finite false 7205759403792794 (-56))).
Proof. by vm_compute. Qed.

Example fadd_sample_3 :
  fadd (Finite (10000000000000000 # 1)) (Finite (1 # 1))%Q
  = of_spec (SFadd 53 1024 (S754_finite false 5000000000000000 (1)) (S754_finite false 4503599627370496 (-52))).
Proof. by vm_compute. Qed.

Example fadd_sample_4 :
  fadd (Finite (-3 # 2)) (Finite (5 # 4))%Q
  = of_spec (SFadd 53 1024 (S754_finite true 6755399441055744 (-52)) (S754_finite false 5629499534213120 (-52))).
Proof. by vm_compute. Qed.

Example fadd_sample_5 :
  fadd (Finite (179769313486231570814527423731704356798070567525844996598917476803157260780028538760589558632766878171540458953514382464234321326889464182768467546703537516986049910576551282076245490090389328944075868508455133942304583236903222948165808559332123348274797826204144723168738177180919299881250404026184124858368 # 1)) (Finite (179769313486231570814527423731704356798070567525844996598917476803157260780028538760589558632766878171540458953514382464234321326889464182768467546703537516986049910576551282076245490090389328944075868508455133942304583236903222948165808559332123348274797826204144723168738177180919299881250404026184124858368 # 1))%Q
  = of_spec (SFadd 53 1024 (S754_finite false 9007199254740991 (971)) (S754_finite false 9007199254740991 (971))).
Proof. by vm_compute. Qed.

Example fdiv_sample_1 :
  fdiv (Finite (1351079888211149 # 4503599627370496)) (Finite (3 # 1))%Q
  = Value (of_spec (SFdiv 53 1024 (S754_finite false 5404319552844596 (-54)) (S754_finite false 6755399441055744 (-51)))).
Proof. by vm_compute. Qed.

Example fdiv_sample_2 :
  fdiv (Finite (1 # 1)) (Finite (3 # 1))%Q
  = Value (of_spec (SFdiv 53 1024 (S754_finite false 4503599627370496 (-52)) (S754_finite false 6755399441055744 (-51)))).
Proof. by vm_compute. Qed.

Example fdiv_sample_3 :
  fdiv (Finite (4728779608739021 # 2251799813685248)) (Finite (3 # 1))%Q
  = Value (of_spec (SFdiv 53 1024 (S754_finite false 4728779608739021 (-51)) (S754_finite false 6755399441055744 (-51)))).
Proof. by vm_compute. Qed.

Example fdiv_sample_4 :
  fdiv (Finite (7 # 1)) (Finite (3602879701896397 # 36028797018963968))%Q
  = Value (of_spec (SFdiv 53 1024 (S754_finite false 7881299347898368 (-50)) (S754_finite false 7205759403792794 (-56)))).
Proof. by vm_compute. Qed.

(** ** The percentile aggregator *)

Section Percentile.

Implicit Types (x y v p : Q) (xs l : list Q).

Lemma Qlt_bool_iff x y : Qlt_bool x y = true ↔ (x < y)%Q.
Proof.
  unfold Qlt_bool. rewrite negb_true_iff. split.
  - intros Hb. apply Qnot_le_lt. intros Hle.
    apply Qle_bool_iff in Hle. congruence.
  - intros Hlt. destruct (Qle_bool y x) eqn:Hb; [|done].
    apply Qle_bool_iff in Hb. by apply Qlt_not_le in Hlt.
Qed.

Lemma Qlt_bool_false x y : Qlt_bool x y = false ↔ (y <= x)%Q.
Proof.
  unfold Qlt_bool. rewrite negb_false_iff. apply Qle_bool_iff.
Qed.

(** [sorted] returns its argument rearranged in ascending order. *)
Lemma insert_perm x l : Permutation (insert x l) (x :: l).
Proof.
  induction l as [|y l IH]; simpl; [done|].
  destruct (Qlt_bool y x); [|done].
  rewrite IH. apply perm_swap.
Qed.

Lemma sorted_perm xs : Permutation (sorted xs) xs.
Proof.
  induction xs as [|x xs IH]; simpl; [done|].
  rewrite insert_perm. by constructor.
Qed.

Lemma sorted_length xs : length (sorted xs) = length xs.
Proof. apply Permutation_length, sorted_perm. Qed.

Lemma insert_ascending x l :
  StronglySorted Qle l → StronglySorted Qle (insert x l).
Proof.
  induction 1 as [|y l Hl IH Hy]; simpl.
  - repeat constructor.
  - destruct (Qlt_bool y x) eqn:Hyx.
    + apply Qlt_bool_iff in Hyx. constructor; [done|].
      eapply Permutation_Forall; [symmetry; apply insert_perm|].
      constructor; [by apply Qlt_le_weak | done].
    + apply Qlt_bool_false in Hyx. constructor.
      * by constructor.
      * constructor; [done|].
        eapply Forall_impl; [exact Hy|].
        intros z Hz. by apply Qle_trans with y.
Qed.

Lemma sorted_ascending xs : StronglySorted Qle (sorted xs).
Proof.
  induction xs as [|x xs IH]; simpl; [constructor|].
  by apply insert_ascending.
Qed.

Lemma ascending_nth l (i j : nat) x y :
  StronglySorted Qle l → (i ≤ j)%nat →
  nth_error l i = Some x → nth_error l j = Some y → (x <= y)%Q.
Proof.
  intros Hl. revert i j. induction Hl as [|z l Hl IH Hz]; intros i j Hij Hi Hj.
  - by destruct i.
  - destruct i as [|i], j as [|j]; simpl in *; try lia.
    + injection Hi as <-. injection Hj as <-. apply Qle_refl.
    + injection Hi as <-. apply nth_error_In in Hj.
      rewrite List.Forall_forall in Hz. by apply Hz.
    + apply (IH i j); [lia|done..].
Qed.

(** Indexing inside the bounds is plain indexing, and succeeds. *)
Lemma getitem_in_range {A : Type} (l : list A) (i : Z) :
  0 ≤ i < Z.of_nat (length l) →
  getitem l i = nth_error l (Z.to_nat i) ∧ is_Some (getitem l i).
Proof.
  intros [Hlo Hhi]. unfold getitem.
  destruct (Z.leb_spec 0 i); [|lia].
  destruct (Z.ltb_spec i (Z.of_nat (length l))); [|lia].
  split; [done|].
  destruct (nth_error l (Z.to_nat i)) eqn:Hnth; [by eexists|].
  apply nth_error_None in Hnth. lia.
Qed.

Lemma clamped_index_range c n : 0 < n → 0 ≤ clamped_index c n < n.
Proof. unfold clamped_index. lia. Qed.

Lemma clamped_index_rank c n :
  0 < n → clamped_index c n = Design.clamped_rank c n - 1.
Proof. unfold clamped_index, Design.clamped_rank. lia. Qed.

(** On a non-empty list [percentile] raises what the computation of
    [ceil(pct * len)] raises, and otherwise returns the element of the
    sorted list at the clamped index: the look-up itself never fails. *)
Lemma percentile_nonempty xs pct :
  xs ≠ [] →
  match ceil_of_product pct (Z.of_nat (length xs)) with
  | Raised exn => percentile xs pct = Raised exn
  | Value c =>
      ∃ v, percentile xs pct = Value v
           ∧ nth_error (sorted xs)
               (Z.to_nat (clamped_index c (Z.of_nat (length xs)))) = Some v
           ∧ In v xs
  end.
Proof.
  intros Hxs. destruct xs as [|x xs]; [done|].
  set (ys := x :: xs). unfold percentile. fold ys.
  change (match ys with [] => Value 0%Q | _ => ?b end) with b. cbv zeta.
  rewrite sorted_length.
  destruct (ceil_of_product pct (Z.of_nat (length ys))) as [c|exn]; [|done].
  fold (clamped_index c (Z.of_nat (length ys))).
  assert (0 < Z.of_nat (length ys)) as Hn by (simpl; lia).
  pose proof (clamped_index_range c _ Hn) as Hidx.
  destruct (getitem_in_range (sorted ys)
              (clamped_index c (Z.of_nat (length ys)))) as [Heq [v Hv]].
  { by rewrite sorted_length. }
  exists v. rewrite Hv. split; [done|].
  rewrite Heq in Hv. split; [done|].
  apply nth_error_In in Hv.
  eapply Permutation_in; [apply sorted_perm | done].
Qed.


(** For a list shorter than 2^53 the length is converted exactly, and the
    product is the rounded product of the proportion and the length. *)
Lemma float_of_int_exact n :
  0 ≤ n < 2 ^ 53 → float_of_int n = Value (Finite (inject_Z n)).
Proof. intros Hn. unfold float_of_int. by rewrite round_int. Qed.

Lemma ceil_of_product_exact p n :
  0 ≤ n < 2 ^ 53 →
  ceil_of_product (Finite p) n = ceil (round (p * inject_Z n)).
Proof. intros Hn. unfold ceil_of_product. by rewrite float_of_int_exact. Qed.

Lemma ceil_of_product_finite p n :
  0 ≤ n < 2 ^ 53 → (Qabs (p * inject_Z n) < inject_Z (2 ^ 1022))%Q →
  ∃ r, round (p * inject_Z n) = Finite r
       ∧ ceil_of_product (Finite p) n = Value (Qceiling r).
Proof.
  intros Hn Hp. destruct (round_finite _ Hp) as [r Hr].
  exists r. split; [done|]. by rewrite ceil_of_product_exact, Hr.
Qed.

Lemma ceil_of_product_int z n :
  0 ≤ n < 2 ^ 53 → 0 ≤ z * n < 2 ^ 53 →
  ceil_of_product (Finite (inject_Z z)) n = Value (z * n).
Proof.
  intros Hn Hzn. rewrite ceil_of_product_exact by done.
  rewrite (round_proper _ (inject_Z (z * n))) by (by rewrite inject_Z_mult).
  rewrite round_int by done. simpl. by rewrite Qceiling_Z.
Qed.



(** A product of a proportion in [[0, 1]] and a length below 2^53 is far
    from the overflow threshold. *)
Lemma proportion_product_small p n :
  0 ≤ n < 2 ^ 53 → (0 <= p)%Q → (p <= 1)%Q →
  (Qabs (p * inject_Z n) < inject_Z (2 ^ 1022))%Q.
Proof.
  intros Hn Hp0 Hp1.
  assert (0 <= inject_Z n)%Q as HnQ.
  { change 0%Q with (inject_Z 0). rewrite <- Zle_Qle. lia. }
  rewrite Qabs_pos by (by apply Qmult_le_0_compat).
  apply Qle_lt_trans with (inject_Z n).
  - rewrite <- (Qmult_1_l (inject_Z n)) at 2.
    by apply Qmult_le_compat_r.
  - rewrite <- Zlt_Qlt. apply Z.lt_trans with (2 ^ 53); [lia|].
    by apply Z.pow_lt_mono_r.
Qed.

Lemma percentile_small xs p :
  Z.of_nat (length xs) < 2 ^ 53 → (0 <= p)%Q → (p <= 1)%Q →
  ∃ v, percentile xs (Finite p) = Value v.
Proof.
  intros Hn Hp0 Hp1. destruct xs as [|x xs]; [by exists 0%Q|].
  set (ys := x :: xs) in *.
  pose proof (percentile_nonempty ys (Finite p)) as Hys.
  destruct (ceil_of_product_finite p (Z.of_nat (length ys)))
    as (r & _ & Hc); [lia| |].
  { apply proportion_product_small; [lia|done..]. }
  rewrite Hc in Hys. destruct Hys as (v & Hv & _); [done|]. by exists v.
Qed.

End Percentile.

Section Extremes.

Implicit Types (x y v p : Q) (xs l : list Q).

(** [max] is an element of the list and an upper bound of it. *)
Lemma py_max_greatest x rest :
  In (py_max x rest) (x :: rest)
  ∧ ∀ y, In y (x :: rest) → (y <= py_max x rest)%Q.
Proof.
  unfold py_max. revert x. induction rest as [|z rest IH]; intros x; simpl.
  - split; [by left|]. intros y [<-|[]]. apply Qle_refl.
  - destruct (IH (if Qlt_bool x z then z else x)) as [Hin Hub].
    destruct (Qlt_bool x z) eqn:Hxz.
    + apply Qlt_bool_iff in Hxz. split.
      * destruct Hin as [Hin|Hin]; [right; by left | right; by right].
      * intros y [<-|[<-|Hy]].
        -- apply Qle_trans with z; [by apply Qlt_le_weak|].
           apply Hub. by left.
        -- apply Hub. by left.
        -- apply Hub. by right.
    + apply Qlt_bool_false in Hxz. split.
      * destruct Hin as [Hin|Hin]; [by left | right; by right].
      * intros y [<-|[<-|Hy]].
        -- apply Hub. by left.
        -- apply Qle_trans with x; [done|]. apply Hub. by left.
        -- apply Hub. by right.
Qed.

(** [min] is an element of the list and a lower bound of it. *)
Lemma py_min_least x rest :
  In (py_min x rest) (x :: rest)
  ∧ ∀ y, In y (x :: rest) → (py_min x rest <= y)%Q.
Proof.
  unfold py_min. revert x. induction rest as [|z rest IH]; intros x; simpl.
  - split; [by left|]. intros y [<-|[]]. apply Qle_refl.
  - destruct (IH (if Qlt_bool z x then z else x)) as [Hin Hlb].
    destruct (Qlt_bool z x) eqn:Hzx.
    + apply Qlt_bool_iff in Hzx. split.
      * destruct Hin as [Hin|Hin]; [right; by left | right; by right].
      * intros y [<-|[<-|Hy]].
        -- apply Qle_trans with z; [|by apply Qlt_le_weak].
           apply Hlb. by left.
        -- apply Hlb. by left.
        -- apply Hlb. by right.
    + apply Qlt_bool_false in Hzx. split.
      * destruct Hin as [Hin|Hin]; [by left | right; by right].
      * intros y [<-|[<-|Hy]].
        -- apply Hlb. by left.
        -- apply Qle_trans with x; [|done]. apply Hlb. by left.
        -- apply Hlb. by right.
Qed.


(** The element of an ascending list at its last index bounds the list
    from above, the one at index 0 from below. *)
Lemma ascending_last l v :
  StronglySorted Qle l →
  nth_error l (length l - 1) = Some v → ∀ y, In y l → (y <= v)%Q.
Proof.
  intros Hl Hv y Hy. apply In_nth_error in Hy as [i Hi].
  assert (i < length l)%nat by (apply nth_error_Some; congruence).
  apply (ascending_nth l i (length l - 1)); [done|lia|done..].
Qed.


(** The index for a proportion of 1 or more is the last one, the index
    for a proportion of 0 or less is the first one. *)
(** The index for a rank of the length or more is the last one, the index
    for a rank of 1 or less is the first one. *)
Lemma clamped_index_top c n : 0 < n → n ≤ c → clamped_index c n = n - 1.
Proof. unfold clamped_index. lia. Qed.


(** For a float [p] in [(0, 1]] the rounded product [p * n] lies in
    [(0, n]], so its ceiling is a rank of the list and needs no
    clamping. *)
Lemma rank_in_range p n r :
  0 < n < 2 ^ 53 → (0 < p)%Q → (p <= 1)%Q → round p = Finite p →
  round (p * inject_Z n) = Finite r →
  1 ≤ Qceiling r ≤ n ∧ Design.clamped_rank (Qceiling r) n = Qceiling r.
Proof.
  intros Hn Hp0 Hp1 Hp Hr.
  assert (1 <= inject_Z n)%Q as HnQ.
  { change 1%Q with (inject_Z 1). rewrite <- Zle_Qle. lia. }
  assert (p <= p * inject_Z n)%Q as Hlo.
  { rewrite <- (Qmult_1_r p) at 1.
    apply Qmult_le_l; [done|done]. }
  assert (p * inject_Z n <= inject_Z n)%Q as Hhi.
  { rewrite <- (Qmult_1_l (inject_Z n)) at 2.
    apply Qmult_le_compat_r; [done|]. lra. }
  pose proof (round_mono_positive _ _ _ _ Hp0 Hlo Hp Hr) as Hr0.
  assert (0 < p * inject_Z n)%Q as Hpos by lra.
  pose proof (round_mono_positive _ _ _ _ Hpos Hhi Hr
                (round_int n ltac:(lia))) as Hr1.
  assert (1 ≤ Qceiling r ≤ n) as Hrank.
  { split.
    - assert (0 < Qceiling r); [|lia].
      rewrite Zlt_Qlt. eapply Qlt_le_trans; [|apply Qle_ceiling].
      change (inject_Z 0) with 0%Q. lra.
    - rewrite <- (Qceiling_Z n). by apply Qceiling_resp_le. }
  split; [done|]. unfold Design.clamped_rank. lia.
Qed.

(** [percentile] at the last index is the maximum, at the first index the
    minimum, which is the head of the sorted list. *)
Lemma percentile_top x xs pct c :
  ceil_of_product pct (Z.of_nat (length (x :: xs))) = Value c →
  Z.of_nat (length (x :: xs)) ≤ c →
  ∃ v, percentile (x :: xs) pct = Value v ∧ (v == py_max x xs)%Q.
Proof.
  intros Hc Hle. set (ys := x :: xs) in *.
  pose proof (percentile_nonempty ys pct) as Hys.
  rewrite Hc in Hys. destruct Hys as (v & Hv & Hnth & Hin); [done|].
  exists v. split; [done|].
  rewrite clamped_index_top in Hnth by (simpl; lia || done).
  destruct (py_max_greatest x xs) as [Hmax Hub]. fold ys in Hmax, Hub.
  apply Qle_antisym; [by apply Hub|].
  apply (ascending_last (sorted ys)).
  - apply sorted_ascending.
  - rewrite sorted_length. rewrite <- Hnth. f_equal. lia.
  - eapply Permutation_in; [symmetry; apply sorted_perm | done].
Qed.


End Extremes.

Section NearestRank.

Implicit Types (x y v p r : Q) (xs l : list Q) (n : Z).

(** The rank the code computes from the rounded product is the nearest
    rank of the design, computed from the exact product, or one less. *)
Lemma rank_of_rounded_product p n r :
  0 < n < 2 ^ 53 → (0 < p)%Q → (p <= 1)%Q → round p = Finite p →
  round (p * inject_Z n) = Finite r →
  Design.nearest_rank p n - 1 ≤ Qceiling r ≤ Design.nearest_rank p n.
Proof.
  intros Hn Hp0 Hp1 Hp Hr.
  destruct (rank_in_range p n r Hn Hp0 Hp1 Hp Hr) as [Hrank _].
  assert (0 < inject_Z n)%Q as HnQ.
  { change 0%Q with (inject_Z 0). rewrite <- Zlt_Qlt. lia. }
  assert (0 < p * inject_Z n)%Q as Hpos by (by apply Qmult_lt_0_compat).
  assert (p * inject_Z n <= inject_Z n)%Q as Hhi.
  { rewrite <- (Qmult_1_l (inject_Z n)) at 2.
    apply Qmult_le_compat_r; [done|]. by apply Qlt_le_weak. }
  set (k := Qceiling (p * inject_Z n)).
  assert (1 ≤ k ≤ n) as Hk.
  { split.
    - assert (0 < k); [|lia].
      rewrite Zlt_Qlt. change (inject_Z 0) with 0%Q.
      eapply Qlt_le_trans; [exact Hpos | apply Qle_ceiling].
    - apply Z.le_trans with (Qceiling (inject_Z n));
        [by apply Qceiling_resp_le | by rewrite Qceiling_Z]. }
  assert (Design.nearest_rank p n = k) as ->.
  { unfold Design.nearest_rank, Design.clamped_rank. fold k. lia. }
  split.
  - destruct (Z.eq_dec k 1) as [->|Hk1]; [lia|].
    assert (0 < inject_Z (k - 1))%Q as Hpred.
    { change 0%Q with (inject_Z 0). rewrite <- Zlt_Qlt. lia. }
    assert (inject_Z (k - 1) <= p * inject_Z n)%Q as Hbelow.
    { apply Qlt_le_weak. replace (k - 1) with (Z.pred k) by lia.
      subst k. unfold Z.pred. rewrite inject_Z_plus.
      pose proof (Qceiling_lt (p * inject_Z n)) as Hlt.
      unfold Z.sub in Hlt. by rewrite inject_Z_plus in Hlt. }
    pose proof (round_mono_positive _ _ _ _ Hpred Hbelow
                  (round_int (k - 1) ltac:(lia)) Hr) as Hle.
    apply Qceiling_resp_le in Hle. by rewrite Qceiling_Z in Hle.
  - pose proof (round_mono_positive _ _ _ _ Hpos (Qle_ceiling _) Hr
                  (round_int k ltac:(lia))) as Hle.
    apply Qceiling_resp_le in Hle. by rewrite Qceiling_Z in Hle.
Qed.

End NearestRank.

(** C5.  [percentile] is the nearest-rank method applied to the binary64
    product.  On the empty list it is 0.0 for every proportion.  On a
    non-empty list [xs] of fewer than 2^53 elements and for a float [p]
    with [0 < p <= 1], [sorted xs] is [xs] in ascending order, the product
    [p * length xs] rounds to a finite float [r], the rank [ceiling r] lies
    in [[1, length xs]], so that clamping leaves it as it is, it is the
    rank [ceiling(p * length xs)] of the exact product or one less, and the
    result is the element of [sorted xs] at the rank [ceiling r] counted
    from 1.  For the proportion 1.0 the result is the maximum of the list,
    and [percentile [1;2;3;4;5] 0.95] is 5. *)
Theorem percentile_is_nearest_rank :
  (∀ pct, percentile [] pct = Value 0%Q)
  ∧ (∀ xs p, xs ≠ [] → Z.of_nat (length xs) < 2 ^ 53 →
       (0 < p)%Q → (p <= 1)%Q → round p = Finite p →
       let n := Z.of_nat (length xs) in
       Sorted Qle (sorted xs)
       ∧ Permutation (sorted xs) xs
       ∧ ∃ r, fmul (Finite p) (Finite (inject_Z n)) = Finite r
              ∧ 1 ≤ Qceiling r ≤ n
              ∧ Design.clamped_rank (Qceiling r) n = Qceiling r
              ∧ Design.nearest_rank p n - 1 ≤ Qceiling r
                ≤ Design.nearest_rank p n
              ∧ ∃ v, percentile xs (Finite p) = Value v
                     ∧ nth_error (sorted xs) (Z.to_nat (Qceiling r - 1))
                       = Some v)
  ∧ (∀ x xs, Z.of_nat (length (x :: xs)) < 2 ^ 53 →
       ∃ v, percentile (x :: xs) (literal 1.0) = Value v
            ∧ (v == py_max x xs)%Q)
  ∧ percentile [1; 2; 3; 4; 5]%Q (literal 0.95) = Value 5%Q.
Proof.
  split; [done|]. split; [|split].
  - intros xs p Hxs Hlen Hp0 Hp1 Hp n.
    assert (0 < n) as Hn by (destruct xs; [done | subst n; simpl; lia]).
    split; [apply StronglySorted_Sorted, sorted_ascending|].
    split; [apply sorted_perm|].
    destruct (ceil_of_product_finite p n) as (r & Hr & Hc); [lia| |].
    { apply proportion_product_small; [lia | by apply Qlt_le_weak | done]. }
    destruct (rank_in_range p n r) as [Hrank Hclamp]; [lia|done..|].
    exists r. split; [exact Hr|]. split; [done|]. split; [done|].
    split; [apply rank_of_rounded_product; done || lia|].
    pose proof (percentile_nonempty xs (Finite p) Hxs) as Hxs'.
    fold n in Hxs'. rewrite Hc in Hxs'.
    destruct Hxs' as (v & Hv & Hnth & _).
    exists v. split; [done|].
    rewrite <- Hnth. f_equal. unfold clamped_index. lia.
  - intros x xs Hlen.
    apply (percentile_top x xs _ (1 * Z.of_nat (length (x :: xs)))); [|lia].
    apply (ceil_of_product_int 1); lia.
  - by vm_compute.
Qed.

Lemma percentile_is_nearest_rank_witness :
  ∃ r, fmul (Finite (1 # 2)) (Finite (inject_Z 3)) = Finite r
       ∧ ∃ v, percentile [3; 1; 2]%Q (Finite (1 # 2)) = Value v
              ∧ nth_error (sorted [3; 1; 2]%Q) (Z.to_nat (Qceiling r - 1))
                = Some v.
Proof.
  destruct (proj1 (proj2 percentile_is_nearest_rank) [3; 1; 2]%Q (1 # 2))
    as (_ & _ & r & Hr & _ & _ & _ & Hv).
  - discriminate.
  - reflexivity.
  - reflexivity.
  - discriminate.
  - reflexivity.
  - exists r. split; [exact Hr | exact Hv].
Defined.

(** C5 as stated fails: the rank of the exact product is not always the
    rank the code takes.  The float 0.2 is slightly above one fifth, so
    for five elements the exact product is above 1 and its ceiling is 2,
    while the rounded product is 1.0 and the code returns the first
    element.  Read as the decimal 0.28, the proportion gives rank 7 of 25
    elements, while the code returns the eighth. *)
Lemma percentile_takes_rounded_product :
  let p := (3602879701896397 # 18014398509481984)%Q in
  let xs := [1; 2; 3; 4; 5]%Q in
  (literal 0.2 = Finite p ∧ round p = Finite p ∧ (0 < p)%Q ∧ (p <= 1)%Q
   ∧ Design.nearest_rank p (Z.of_nat (length xs)) = 2
   ∧ nth_error (sorted xs)
       (Z.to_nat (Design.nearest_rank p (Z.of_nat (length xs)) - 1))
     = Some 2%Q
   ∧ percentile xs (Finite p) = Value 1%Q)
  ∧ (Design.nearest_rank 0.28 25 = 7
     ∧ percentile (map inject_Z (range 1 26)) (literal 0.28) = Value 8%Q).
Proof.
  cbv zeta. repeat split; try (by vm_compute).
Qed.




(** ** The soak-test driver *)

Section Iteration.

Context (w : world) (args : Namespace) (cli : list string).
Implicit Types (t : tallies) (i : Z) (indices : list Z).

(** The two ways an iteration goes. *)
Lemma iteration_timeout t i :
  times_out w args cli i = true →
  iteration w args (base_cmd args) cli t i
  = ({| crashes := crashes t + 1;
        rate_limits := rate_limits t;
        successes := successes t;
        retriable_seen := retriable_seen t;
        durations := durations t |},
     [Spawn (cmd_of w args cli i) (timeout args);
      PrintTimeout i (timeout args)]).
Proof.
  unfold times_out, iteration, run_once. fold (cmd_of w args cli i).
  by intros ->.
Qed.

Lemma iteration_completed t i :
  times_out w args cli i = false →
  let p := process w i (cmd_of w args cli i) in
  let rate_limited := contains "Rate limit exceeded" (stdout p) in
  let retried := contains "Retriable error" (stdout p) in
  let t' := (iteration w args (base_cmd args) cli t i).1 in
  crashes t' = (if returncode p =? 0 then crashes t else crashes t + 1)
  ∧ durations t' = durations t ++ [elapsed p]
  ∧ rate_limits t' = (if rate_limited then rate_limits t + 1 else rate_limits t)
  ∧ successes t'
    = (if negb rate_limited && (returncode p =? 0)
       then successes t + 1 else successes t)
  ∧ retriable_seen t'
    = (if retried then retriable_seen t + 1 else retriable_seen t)
  ∧ reported (iteration w args (base_cmd args) cli t i).2
    = [(i, if rate_limited then "RATE_LIMIT"
           else if returncode p =? 0 then "OK" else "FAIL")]
  ∧ spawned (iteration w args (base_cmd args) cli t i).2
    = [cmd_of w args cli i]
  ∧ ¬ In PrintError (iteration w args (base_cmd args) cli t i).2.
Proof.
  unfold times_out, iteration, run_once. fold (cmd_of w args cli i).
  intros ->. cbv zeta. cbn [exit_code duration output retriable rate_limit].
  set (p := process w i (cmd_of w args cli i)).
  unfold write_log.
  destruct (contains "Rate limit exceeded" (stdout p)),
    (contains "Retriable error" (stdout p)),
    (returncode p =? 0), (String.eqb (log_dir args) ""), (verbose args),
    (Qlt_bool 0 (sleep args));
    cbn; (repeat split; try reflexivity);
    intros Hin; repeat (destruct Hin as [Hin|Hin]; [discriminate|]); done.
Qed.

End Iteration.

Section Loop.

Context (w : world) (args : Namespace) (cli : list string).
Implicit Types (t : tallies) (i : Z) (indices : list Z).

(** One iteration, whichever way it goes. *)
Lemma iteration_facts t i :
  let p := process w i (cmd_of w args cli i) in
  let timed_out := times_out w args cli i in
  let rate_limited := contains "Rate limit exceeded" (stdout p) in
  let step := iteration w args (base_cmd args) cli t i in
  reported step.2
  = [(i, Design.display_status timed_out rate_limited (returncode p))]
  ∧ crashes step.1
    = crashes t + (if Design.is_crash timed_out (returncode p) then 1 else 0)
  ∧ durations step.1 = durations t ++ samples w args cli [i]
  ∧ spawned step.2 = [cmd_of w args cli i]
  ∧ ¬ In PrintError step.2.
Proof.
  cbv zeta. unfold samples, Design.display_status, Design.is_crash. simpl.
  destruct (times_out w args cli i) eqn:Hout.
  - rewrite iteration_timeout by done. simpl. rewrite app_nil_r.
    repeat split; try reflexivity.
    intros [|[|[]]]; discriminate.
  - destruct (iteration_completed w args cli t i Hout)
      as (Hc & Hd & _ & _ & _ & Hr & Hs & He).
    rewrite Hc, Hd, Hr, Hs. simpl.
    repeat split; try done.
    destruct (returncode _ =? 0); simpl; lia.
Qed.

Lemma loop_app t indices indices' :
  loop w args (base_cmd args) cli t (indices ++ indices')
  = let first := loop w args (base_cmd args) cli t indices in
    let second := loop w args (base_cmd args) cli first.1 indices' in
    (second.1, first.2 ++ second.2).
Proof.
  revert t. induction indices as [|i indices IH]; intros t; simpl.
  - by destruct (loop _ _ _ _ t indices').
  - destruct (iteration _ _ _ _ t i) as [t1 ev1]. rewrite IH. simpl.
    destruct (loop _ _ _ _ t1 indices) as [t2 ev2]. simpl.
    destruct (loop _ _ _ _ t2 indices') as [t3 ev3]. simpl.
    by rewrite app_assoc.
Qed.

Lemma loop_cons t i indices :
  loop w args (base_cmd args) cli t (i :: indices)
  = let step := iteration w args (base_cmd args) cli t i in
    let rest := loop w args (base_cmd args) cli step.1 indices in
    (rest.1, step.2 ++ rest.2).
Proof.
  simpl. destruct (iteration _ _ _ _ t i) as [t1 ev1]. simpl.
  by destruct (loop _ _ _ _ t1 indices).
Qed.

Lemma reported_app (events events' : list event) :
  reported (events ++ events') = reported events ++ reported events'.
Proof.
  induction events as [|e events IH]; [done|].
  destruct e; simpl; by rewrite IH.
Qed.

Lemma spawned_app (events events' : list event) :
  spawned (events ++ events') = spawned events ++ spawned events'.
Proof.
  induction events as [|e events IH]; [done|].
  destruct e; simpl; by rewrite IH.
Qed.

(** The loop runs every iteration it is given, in order: each is spawned
    and reported once, the duration list grows by the samples of the
    iterations that ended in time, and the crash count never decreases. *)
Lemma loop_facts t indices :
  let final := loop w args (base_cmd args) cli t indices in
  map fst (reported final.2) = indices
  ∧ spawned final.2 = map (cmd_of w args cli) indices
  ∧ durations final.1 = durations t ++ samples w args cli indices
  ∧ crashes t ≤ crashes final.1
  ∧ ¬ In PrintError final.2.
Proof.
  revert t. induction indices as [|i indices IH]; intros t.
  - simpl. rewrite app_nil_r. repeat split; try done. lia.
  - rewrite loop_cons. cbv zeta. cbn [fst snd].
    destruct (iteration_facts t i) as (Hr & Hc & Hd & Hs & He).
    destruct (IH (iteration w args (base_cmd args) cli t i).1)
      as (Hr' & Hs' & Hd' & Hc' & He').
    rewrite reported_app, spawned_app, map_app, Hr, Hs, Hr', Hs', Hd', Hd.
    split; [done|]. split; [done|]. split.
    { rewrite <- app_assoc. f_equal. unfold samples. simpl.
      by rewrite app_nil_r. }
    split.
    { rewrite Hc in Hc'. destruct (Design.is_crash _ _); lia. }
    intros Hin. apply in_app_or in Hin as [Hin|Hin]; tauto.
Qed.

End Loop.

(** C4.  An iteration's line shows TIMEOUT if the process timed out, else
    RATE_LIMIT if the output has the rate-limit marker, else OK if the exit
    code is zero, else FAIL; and whatever the line shows, the crash count
    grows by one exactly when the process timed out or its exit code is not
    zero. *)
Theorem iteration_status_and_crash (w : world) (args : Namespace)
  (cli : list string) (t : tallies) (i : Z) :
  let p := process w i (cmd_of w args cli i) in
  let timed_out := times_out w args cli i in
  let rate_limited := contains "Rate limit exceeded" (stdout p) in
  let step := iteration w args (base_cmd args) cli t i in
  reported step.2
  = [(i, Design.display_status timed_out rate_limited (returncode p))]
  ∧ crashes step.1
    = crashes t + (if Design.is_crash timed_out (returncode p) then 1 else 0)
  ∧ (timed_out = false →
     rate_limit <$> run_once p (timeout args) = Some rate_limited
     ∧ exit_code <$> run_once p (timeout args) = Some (returncode p))
  ∧ (timed_out = true → run_once p (timeout args) = None).
Proof.
  cbv zeta. destruct (iteration_facts w args cli t i) as (Hr & Hc & _).
  split; [done|]. split; [done|].
  unfold times_out, run_once.
  split; intros ->; done.
Qed.

Lemma iteration_status_and_crash_witness :
  let w := {| time_ms := fun _ => 0;
              process := fun _ _ =>
                {| run_time := 1; elapsed := 1; returncode := 1;
                   stdout := "Rate limit exceeded" |} |} in
  let step := iteration w defaults (base_cmd defaults) ["balances"] tallies0 1 in
  reported step.2 = [(1, "RATE_LIMIT")] ∧ crashes step.1 = 1.
Proof.
  cbv zeta.
  destruct (iteration_status_and_crash
              {| time_ms := fun _ => 0;
                 process := fun _ _ =>
                   {| run_time := 1; elapsed := 1; returncode := 1;
                      stdout := "Rate limit exceeded" |} |}
              defaults ["balances"] tallies0 1) as (Hr & Hc & Hdone & _).
  destruct Hdone as [_ _]; [reflexivity|].
  split; [exact Hr | exact Hc].
Defined.

Section Range.

Lemma range_empty (lo hi : Z) : hi ≤ lo → range lo hi = [].
Proof.
  intros Hle. unfold range. by replace (Z.to_nat (hi - lo)) with 0%nat by lia.
Qed.

Lemma range_cons (lo hi : Z) : lo < hi → range lo hi = lo :: range (lo + 1) hi.
Proof.
  intros Hlt. unfold range.
  replace (Z.to_nat (hi - lo)) with (S (Z.to_nat (hi - (lo + 1)))) by lia.
  simpl. f_equal; [lia|].
  rewrite <- seq_shift, map_map. apply map_ext. intros k. lia.
Qed.

Lemma range_app (lo mid hi : Z) :
  lo ≤ mid ≤ hi → range lo hi = range lo mid ++ range mid hi.
Proof.
  intros [Hlo Hhi].
  remember (Z.to_nat (mid - lo)) as n eqn:Hn.
  revert lo Hlo Hn. induction n as [|n IH]; intros lo Hlo Hn.
  - assert (lo = mid) as -> by lia. by rewrite (range_empty mid mid).
  - rewrite (range_cons lo hi), (range_cons lo mid) by lia.
    simpl. f_equal. apply IH; lia.
Qed.

(** Iteration [i] splits the run in the iterations before it, itself and
    the iterations after it. *)
Lemma range_split (i n : Z) :
  1 ≤ i ≤ n → range 1 (n + 1) = range 1 i ++ i :: range (i + 1) (n + 1).
Proof.
  intros Hi. rewrite (range_app 1 i (n + 1)) by lia.
  f_equal. apply range_cons. lia.
Qed.

Lemma range_In (lo hi i : Z) : In i (range lo hi) ↔ lo ≤ i < hi.
Proof.
  unfold range. rewrite in_map_iff. split.
  - intros (k & <- & Hk). apply in_seq in Hk. lia.
  - intros Hi. exists (Z.to_nat (i - lo)). split; [lia|].
    apply in_seq. lia.
Qed.

Lemma range_length (lo hi : Z) : length (range lo hi) = Z.to_nat (hi - lo).
Proof. unfold range. by rewrite length_map, length_seq. Qed.

End Range.

Section Main.

Context (w : world) (args : Namespace).

(** The loop records at most one duration for each iteration. *)
Lemma samples_length (cli : list string) (indices : list Z) :
  (length (samples w args cli indices) ≤ length indices)%nat.
Proof.
  unfold samples. induction indices as [|i indices IH]; simpl; [done|].
  rewrite length_app. destruct (times_out w args cli i); simpl; lia.
Qed.

Lemma durations_bound :
  iterations args < 2 ^ 53 →
  Z.of_nat (length (durations (run w args (cli_args args)).1)) < 2 ^ 53.
Proof.
  intros Hn.
  destruct (loop_facts w args (cli_args args) tallies0
              (range 1 (iterations args + 1))) as (_ & _ & Hd & _).
  fold (run w args (cli_args args)) in Hd. rewrite Hd. simpl.
  pose proof (samples_length (cli_args args) (range 1 (iterations args + 1)))
    as Hlen.
  rewrite range_length in Hlen. lia.
Qed.

(** The two proportions of the summary, as floats. *)
Lemma literal_p50 : literal 0.50 = Finite (1 # 2).
Proof. by vm_compute. Qed.

Lemma literal_p95 :
  ∃ p, literal 0.95 = Finite p ∧ (1 # 2 <= p)%Q ∧ (p <= 1)%Q.
Proof. eexists. split; [by vm_compute|]. split; by vm_compute. Qed.

Lemma fdiv_by_length (x : float) (n : Z) :
  0 < n → ∃ y, fdiv x (Finite (inject_Z n)) = Value y.
Proof.
  intros Hn. unfold fdiv.
  destruct (Qeq_bool (inject_Z n) 0) eqn:Hz.
  { apply Qeq_bool_iff in Hz. unfold Qeq in Hz. simpl in Hz. lia. }
  destruct x; by eexists.
Qed.

(** What [main] returns and prints once it has a command to run, for
    fewer than 2^53 iterations: the length of the duration list is then
    converted exactly, and neither the average nor a percentile raises. *)
Lemma main_report :
  cli_args args ≠ [] →
  iterations args < 2 ^ 53 →
  let t := (run w args (cli_args args)).1 in
  ∃ avg p50 p95,
    percentile (durations t) (literal 0.50) = Value p50
    ∧ percentile (durations t) (literal 0.95) = Value p95
    ∧ (durations t = [] → avg = Finite 0)
    ∧ (durations t ≠ [] →
       fdiv (sum (durations t))
         (Finite (inject_Z (Z.of_nat (length (durations t))))) = Value avg)
    ∧ main w args
      = (Return (if 0 <? crashes t then 2 else 0),
         (if String.eqb (log_dir args) "" then []
          else [Makedirs (log_dir args)])
         ++ (run w args (cli_args args)).2
         ++ [PrintSummary
               {| sum_command := String.concat " " (cli_args args);
                  sum_iterations := iterations args;
                  sum_successes := successes t;
                  sum_rate_limits := rate_limits t;
                  sum_retriable_seen := retriable_seen t;
                  sum_crashes := crashes t;
                  sum_avg := avg;
                  sum_p50 := p50;
                  sum_p95 := p95;
                  sum_min :=
                    match durations t with
                    | [] => 0%Q
                    | x :: rest => py_min x rest
                    end;
                  sum_max :=
                    match durations t with
                    | [] => 0%Q
                    | x :: rest => py_max x rest
                    end |}]).
Proof.
  intros Hcli Hn. cbv zeta. pose proof (durations_bound Hn) as Hlen.
  unfold main.
  destruct (cli_args args) as [|c cs] eqn:Hc; [done|].
  destruct (run w args (c :: cs)) as [t events]. cbn [fst snd] in *.
  destruct literal_p95 as (q & Hq & Hq0 & Hq1).
  destruct (percentile_small (durations t) (1 # 2)) as [p50 Hp50];
    [done|discriminate..|].
  destruct (percentile_small (durations t) q) as [p95 Hp95]; [done|lra|done|].
  rewrite literal_p50, Hq, Hp50, Hp95.
  destruct (durations t) as [|x xs] eqn:Hd.
  - exists (Finite 0), p50, p95.
    split; [reflexivity|]. split; [reflexivity|].
    split; [intros _; reflexivity|].
    split; [intros Hne; by destruct Hne | reflexivity].
  - rewrite float_of_int_exact by lia.
    destruct (fdiv_by_length (sum (x :: xs)) (Z.of_nat (length (x :: xs))))
      as [avg Havg]; [simpl; lia|].
    rewrite Havg. exists avg, p50, p95.
    split; [reflexivity|]. split; [reflexivity|].
    split; [intros [=]|].
    split; [intros _; reflexivity | reflexivity].
Qed.

(** With a command to run and fewer than 2^53 iterations, [main] runs the
    loop, prints the summary and returns 2 if something crashed and 0
    otherwise. *)
Lemma main_runs :
  cli_args args ≠ [] →
  iterations args < 2 ^ 53 →
  ∃ report,
    main w args
    = (Return (if 0 <? crashes (run w args (cli_args args)).1 then 2 else 0),
       (if String.eqb (log_dir args) "" then []
        else [Makedirs (log_dir args)])
       ++ (run w args (cli_args args)).2 ++ [PrintSummary report])
    ∧ sum_crashes report = crashes (run w args (cli_args args)).1.
Proof.
  intros Hcli Hn.
  destruct (main_report Hcli Hn) as (avg & p50 & p95 & _ & _ & _ & _ & ->).
  eexists. split; reflexivity.
Qed.

(** Whatever the number of iterations, [main] either prints the summary
    and returns 2 or 0 as above, or ends with an exception of the summary
    arithmetic after the loop has run. *)
Lemma main_outcome :
  cli_args args ≠ [] →
  let made := if String.eqb (log_dir args) "" then []
              else [Makedirs (log_dir args)] in
  let ran := run w args (cli_args args) in
  (∃ report,
     main w args
     = (Return (if 0 <? crashes ran.1 then 2 else 0),
        made ++ ran.2 ++ [PrintSummary report])
     ∧ sum_crashes report = crashes ran.1)
  ∨ (∃ exn, main w args = (Raise exn, made ++ ran.2)).
Proof.
  intros Hcli. cbv zeta. unfold main.
  destruct (cli_args args) as [|c cs] eqn:Hc; [done|].
  destruct (run w args (c :: cs)) as [t events]. cbn [fst snd].
  destruct (durations t) as [|x xs];
    repeat match goal with
           | |- context [match ?a with Value _ => _ | Raised _ => _ end] =>
               destruct a
           end;
    first [ by (left; eexists; split; reflexivity)
          | by (right; eexists; reflexivity) ].
Qed.

Lemma main_trace :
  cli_args args ≠ [] →
  ∃ tail,
    (main w args).2
    = (if String.eqb (log_dir args) "" then []
       else [Makedirs (log_dir args)])
      ++ (run w args (cli_args args)).2 ++ tail
    ∧ (tail = [] ∨ ∃ report, tail = [PrintSummary report]).
Proof.
  intros Hcli.
  destruct (main_outcome Hcli) as [(report & -> & _) | (exn & ->)]; cbn [snd].
  - eexists. split; [reflexivity|]. right. by eexists.
  - exists []. rewrite app_nil_r. split; [done | by left].
Qed.

(** A run that counted a crash does not return 0. *)
Lemma main_not_zero :
  cli_args args ≠ [] →
  1 ≤ crashes (run w args (cli_args args)).1 →
  (main w args).1 ≠ Return 0.
Proof.
  intros Hcli Hcrash.
  destruct (main_outcome Hcli) as [(report & -> & _) | (exn & ->)]; cbn [fst].
  - destruct (Z.ltb_spec 0 (crashes (run w args (cli_args args)).1));
      [discriminate | lia].
  - discriminate.
Qed.

Lemma main_reported :
  cli_args args ≠ [] →
  reported (main w args).2 = reported (run w args (cli_args args)).2
  ∧ spawned (main w args).2 = spawned (run w args (cli_args args)).2
  ∧ (In PrintError (main w args).2 →
     In PrintError (run w args (cli_args args)).2).
Proof.
  intros Hcli. destruct (main_trace Hcli) as (tail & -> & Htail).
  set (made := if String.eqb (log_dir args) "" then []
               else [Makedirs (log_dir args)]).
  assert (reported made = [] ∧ spawned made = [] ∧ ¬ In PrintError made)
    as (Hr & Hs & He).
  { subst made. destruct (String.eqb (log_dir args) ""); simpl.
    - tauto.
    - repeat split; try done. intros [|[]]; discriminate. }
  assert (reported tail = [] ∧ spawned tail = [] ∧ ¬ In PrintError tail)
    as (Hr' & Hs' & He').
  { destruct Htail as [-> | [report ->]]; simpl.
    - tauto.
    - repeat split; try done. intros [|[]]; discriminate. }
  rewrite !reported_app, !spawned_app, Hr, Hs, Hr', Hs'. simpl.
  rewrite !app_nil_r.
  split; [done|]. split; [done|].
  intros Hin. apply in_app_or in Hin as [Hin|Hin]; [tauto|].
  apply in_app_or in Hin as [Hin|Hin]; [done|tauto].
Qed.

(** The tokens [main] settles on are empty only for a lone separator. *)
Lemma cli_args_empty : cli_args args = [] ↔ command args = ["--"].
Proof.
  unfold cli_args. split.
  - destruct (command args) as [|first rest]; [done|].
    destruct (String.eqb_spec first "--") as [->|]; [|done].
    by intros ->.
  - by intros ->.
Qed.

End Main.


(** [main] looks at the command tokens through [cli_args] only. *)
Lemma loop_same_options (w : world) (args args' : Namespace)
  (base cli : list string) (t : tallies) (indices : list Z) :
  sleep args = sleep args' → timeout args = timeout args' →
  log_dir args = log_dir args' → verbose args = verbose args' →
  loop w args base cli t indices = loop w args' base cli t indices.
Proof.
  intros Hs Ht Hl Hv. revert t.
  induction indices as [|i indices IH]; intros t; simpl; [done|].
  assert (iteration w args base cli t i = iteration w args' base cli t i)
    as ->.
  { unfold iteration. by rewrite Hs, Ht, Hl, Hv. }
  destruct (iteration w args' base cli t i) as [t1 ev1]. by rewrite IH.
Qed.

Lemma main_same_cli_args (w : world) (args args' : Namespace) :
  jar args = jar args' → iterations args = iterations args' →
  sleep args = sleep args' → timeout args = timeout args' →
  log_dir args = log_dir args' → verbose args = verbose args' →
  cli_args args = cli_args args' →
  main w args = main w args'.
Proof.
  intros Hj Hi Hs Ht Hl Hv Hc. unfold main, run, base_cmd.
  rewrite Hc, Hj, Hi, Hl.
  by rewrite (loop_same_options w args args') by done.
Qed.

(** ** The command line *)

(** C3, as the code has it.  When the command tokens are the separator
    alone, [main] prints the error and returns 2 at once: nothing is
    spawned and no iteration runs. *)
Theorem separator_alone_exits_2 (w : world) (args : Namespace) :
  command args = ["--"] →
  main w args = (Return 2, [PrintError])
  ∧ spawned (main w args).2 = []
  ∧ reported (main w args).2 = [].
Proof.
  intros Hcmd. unfold main.
  by rewrite (proj2 (cli_args_empty args) Hcmd).
Qed.

Lemma separator_alone_exits_2_witness :
  main quiet {| jar := "order-manager.jar"; iterations := 5; sleep := 0;
                timeout := 30; log_dir := ""; verbose := false;
                command := ["--"] |}
  = (Return 2, [PrintError]).
Proof.
  apply (separator_alone_exits_2 quiet
           {| jar := "order-manager.jar"; iterations := 5; sleep := 0;
              timeout := 30; log_dir := ""; verbose := false;
              command := ["--"] |}).
  reflexivity.
Defined.

(** C3 as stated fails: with no command token at all, and every process
    exiting 0, [main] does not stop with exit code 2 before running
    anything; it spawns the default command in each of the 50 iterations
    and returns 0. *)
Lemma no_command_runs_balances :
  command defaults = []
  ∧ ¬ ((main quiet defaults).1 = Return 2
       ∧ spawned (main quiet defaults).2 = [])
  ∧ (main quiet defaults).1 = Return 0
  ∧ spawned (main quiet defaults).2
    = repeat ["java"; "-jar"; "target/order-manager-1.0.0.jar"; "balances"] 50
  ∧ map fst (reported (main quiet defaults).2) = range 1 51.
Proof.
  split; [reflexivity|]. split; [|by vm_compute].
  intros [Hexit _]. vm_compute in Hexit. discriminate.
Qed.

(** C10.  With no command token [main] takes the default [balances] and
    runs as if that were the command: every iteration spawns
    [java -jar <jar> balances].  The error exit, 2 with nothing but the
    error message printed, happens exactly when the tokens are the
    separator alone; in every other case all the iterations are spawned
    and reported. *)
Theorem default_command_and_lone_separator (w : world) (args : Namespace) :
  (command args = [] →
   cli_args args = ["balances"]
   ∧ main w args
     = main w {| jar := jar args; iterations := iterations args;
                 sleep := sleep args; timeout := timeout args;
                 log_dir := log_dir args; verbose := verbose args;
                 command := ["balances"] |}
   ∧ spawned (main w args).2
     = map (fun _ => ["java"; "-jar"; jar args; "balances"])
         (range 1 (iterations args + 1)))
  ∧ (In PrintError (main w args).2 ↔ command args = ["--"])
  ∧ (command args = ["--"] → main w args = (Return 2, [PrintError]))
  ∧ (command args ≠ ["--"] →
     spawned (main w args).2
     = map (cmd_of w args (cli_args args)) (range 1 (iterations args + 1))
     ∧ map fst (reported (main w args).2) = range 1 (iterations args + 1)).
Proof.
  assert (command args ≠ ["--"] →
          spawned (main w args).2
          = map (cmd_of w args (cli_args args)) (range 1 (iterations args + 1))
          ∧ map fst (reported (main w args).2)
            = range 1 (iterations args + 1)
          ∧ ¬ In PrintError (main w args).2) as Hruns.
  { intros Hcmd.
    assert (cli_args args ≠ []) as Hcli by (by rewrite cli_args_empty).
    destruct (main_reported w args Hcli) as (-> & -> & Herr).
    destruct (loop_facts w args (cli_args args) tallies0
                (range 1 (iterations args + 1))) as (Hr & Hs & _ & _ & He).
    unfold run. tauto. }
  split; [|split; [|split]].
  - intros Hcmd. split; [unfold cli_args; by rewrite Hcmd|]. split.
    + apply main_same_cli_args; try reflexivity.
      unfold cli_args. simpl. by rewrite Hcmd.
    + destruct Hruns as (-> & _); [by rewrite Hcmd|].
      apply map_ext. intros i. unfold cmd_of, cli_args. by rewrite Hcmd.
  - split.
    + intros Hin. destruct (decide (command args = ["--"])) as [|Hne]; [done|].
      destruct (Hruns Hne) as (_ & _ & []). done.
    + intros Hcmd. unfold main.
      rewrite (proj2 (cli_args_empty args) Hcmd). by left.
  - intros Hcmd. unfold main. by rewrite (proj2 (cli_args_empty args) Hcmd).
  - intros Hcmd. destruct (Hruns Hcmd) as (? & ? & _). done.
Qed.

Lemma default_command_and_lone_separator_witness :
  cli_args defaults = ["balances"]
  ∧ spawned (main quiet defaults).2
    = map (fun _ => ["java"; "-jar"; "target/order-manager-1.0.0.jar";
                     "balances"]) (range 1 51)
  ∧ ¬ In PrintError (main quiet defaults).2.
Proof.
  pose proof (default_command_and_lone_separator quiet defaults)
    as (Hdefault & Herr & _ & _).
  destruct Hdefault as (Hcli & _ & Hspawn); [reflexivity|].
  split; [exact Hcli|]. split; [exact Hspawn|].
  intros Hin. pose proof (proj1 Herr Hin) as Hcmd. discriminate Hcmd.
Defined.

(** ** A timeout in the middle of a run *)

(** C6.  Let the process of iteration [i] outlive the timeout.  The run
    is the iterations before [i], iteration [i], and the iterations after
    it, all of them spawned and reported; iteration [i] is reported as
    TIMEOUT, leaves the duration list as it found it and adds one to the
    crash count; the duration list of the whole run is that of the other
    iterations alone; [main] does not return 0; and, for fewer than 2^53
    iterations, where the length of the duration list is converted to a
    float exactly, it prints a summary with at least one crash and
    returns 2. *)
Theorem timeout_is_local (w : world) (args : Namespace) (i : Z) :
  cli_args args ≠ [] →
  1 ≤ i ≤ iterations args →
  (timeout args
   < run_time (process w i (cmd_of w args (cli_args args) i)))%Q →
  let cli := cli_args args in
  let n := iterations args in
  let before := loop w args (base_cmd args) cli tallies0 (range 1 i) in
  let step := iteration w args (base_cmd args) cli before.1 i in
  let after := loop w args (base_cmd args) cli step.1 (range (i + 1) (n + 1)) in
  run w args cli = (after.1, before.2 ++ step.2 ++ after.2)
  ∧ reported step.2 = [(i, "TIMEOUT")]
  ∧ durations step.1 = durations before.1
  ∧ crashes step.1 = crashes before.1 + 1
  ∧ durations (run w args cli).1
    = samples w args cli (range 1 i ++ range (i + 1) (n + 1))
  ∧ map fst (reported (main w args).2) = range 1 (n + 1)
  ∧ spawned (main w args).2 = map (cmd_of w args cli) (range 1 (n + 1))
  ∧ In (i, "TIMEOUT") (reported (main w args).2)
  ∧ (main w args).1 ≠ Return 0
  ∧ (n < 2 ^ 53 →
     (∃ report, In (PrintSummary report) (main w args).2
                ∧ 1 ≤ sum_crashes report)
     ∧ (main w args).1 = Return 2).
Proof.
  intros Hcli Hi Hslow. cbv zeta.
  set (cli := cli_args args). set (n := iterations args).
  set (before := loop w args (base_cmd args) cli tallies0 (range 1 i)).
  set (step := iteration w args (base_cmd args) cli before.1 i).
  set (after := loop w args (base_cmd args) cli step.1
                  (range (i + 1) (n + 1))).
  assert (times_out w args cli i = true) as Hout.
  { unfold times_out. by apply Qlt_bool_iff. }
  assert (run w args cli = (after.1, before.2 ++ step.2 ++ after.2)) as Hrun.
  { unfold run. fold n. rewrite (range_split i n) by done.
    rewrite loop_app. cbv zeta. fold before. rewrite loop_cons. cbv zeta.
    fold step. fold after. done. }
  destruct (loop_facts w args cli tallies0 (range 1 i))
    as (Hrb & Hsb & Hdb & Hcb & _). fold before in Hrb, Hsb, Hdb, Hcb.
  destruct (loop_facts w args cli step.1 (range (i + 1) (n + 1)))
    as (Hra & Hsa & Hda & Hca & _). fold after in Hra, Hsa, Hda, Hca.
  destruct (loop_facts w args cli tallies0 (range 1 (n + 1)))
    as (Hr & Hs & _). fold (run w args cli) in Hr, Hs.
  assert (step = ({| crashes := crashes before.1 + 1;
                     rate_limits := rate_limits before.1;
                     successes := successes before.1;
                     retriable_seen := retriable_seen before.1;
                     durations := durations before.1 |},
                  [Spawn (cmd_of w args cli i) (timeout args);
                   PrintTimeout i (timeout args)])) as Hstep.
  { subst step. by apply iteration_timeout. }
  assert (reported step.2 = [(i, "TIMEOUT")]) as Hrs by (by rewrite Hstep).
  assert (durations step.1 = durations before.1) as Hds by (by rewrite Hstep).
  assert (crashes step.1 = crashes before.1 + 1) as Hcs by (by rewrite Hstep).
  assert (1 ≤ crashes (run w args cli).1) as Hcrash.
  { rewrite Hrun. simpl in *. lia. }
  destruct (main_reported w args Hcli) as (Hmr & Hms & _). fold cli in Hmr, Hms.
  split; [done|]. split; [done|]. split; [done|]. split; [done|]. split.
  { rewrite Hrun. cbn [fst]. rewrite Hda, Hds, Hdb. simpl.
    unfold samples. by rewrite flat_map_app. }
  split; [by rewrite Hmr|]. split; [by rewrite Hms|]. split.
  { rewrite Hmr, Hrun. cbn [snd]. rewrite !reported_app, Hrs.
    apply in_or_app. right. by left. }
  split; [by apply main_not_zero|].
  intros Hbound.
  destruct (main_runs w args Hcli Hbound) as (report & Hmain & Hreport).
  fold cli in Hmain, Hreport.
  split.
  { exists report. rewrite Hmain. cbn [snd]. split; [|lia].
    apply in_or_app. right. apply in_or_app. right. by left. }
  rewrite Hmain. cbn [fst].
  destruct (Z.ltb_spec 0 (crashes (run w args cli).1)); [done|lia].
Qed.

Lemma timeout_is_local_witness :
  let args := {| jar := "order-manager.jar"; iterations := 3; sleep := 0;
                 timeout := 30; log_dir := ""; verbose := false;
                 command := ["--"; "show"; "{i}-{ts}"] |} in
  reported (main slow_second args).2
  = [(1, "OK"); (2, "TIMEOUT"); (3, "OK")]
  ∧ durations (run slow_second args (cli_args args)).1 = [1; 1]%Q
  ∧ (main slow_second args).1 = Return 2.
Proof.
  intros args.
  assert (cli_args args ≠ []) as Hcli by discriminate.
  assert (1 ≤ 2 ≤ iterations args) as Hi by (simpl; lia).
  assert (timeout args
          < run_time (process slow_second 2
                        (cmd_of slow_second args (cli_args args) 2)))%Q
    as Hslow by reflexivity.
  destruct (timeout_is_local slow_second args 2 Hcli Hi Hslow)
    as (_ & _ & _ & _ & _ & _ & _ & _ & _ & Hend).
  destruct Hend as [_ Hexit]; [reflexivity|].
  split; [reflexivity|]. split; [reflexivity | exact Hexit].
Defined.

(** * Further properties of the service *)

Section Service.

Implicit Types (reg : gmap string Z) (key route : string) (r : request).
Implicit Types (reqs : list (Z * request)).

(** Serving two batches one after the other is serving their
    concatenation, and every request gets exactly one response. *)
Theorem serve_app reg reqs reqs' :
  serve reg (reqs ++ reqs')
  = ((serve reg reqs).1 ++ (serve (serve reg reqs).2 reqs').1,
     (serve (serve reg reqs).2 reqs').2)
  ∧ length (serve reg (reqs ++ reqs')).1 = (length reqs + length reqs')%nat.
Proof.
  assert (∀ reg reqs, length (serve reg reqs).1 = length reqs) as Hlen.
  { intros reg0 l. revert reg0. induction l as [|[t r] l IH]; intros reg0.
    - done.
    - simpl. destruct (dispatch r t reg0) as [resp reg1]. specialize (IH reg1).
      destruct (serve reg1 l). simpl in *. by rewrite IH. }
  split; [|by rewrite Hlen, length_app].
  revert reg. induction reqs as [|[t r] reqs IH]; intros reg; simpl.
  - by destruct (serve reg reqs').
  - destruct (dispatch r t reg) as [resp reg1]. rewrite IH.
    by destruct (serve reg1 reqs).
Qed.

(** X1.  The registry of a service started fresh holds an entry exactly for the
    stateful endpoints that were called, and every counter stays in its
    cycle: time in 0..3, place_order in 0..4, ticker at 0. *)
Theorem registry_invariant reqs :
  let reg := (serve attempt_registry reqs).2 in
  (∀ key, is_Some (reg !! key) ↔ 0 < calls_to key reqs)
  ∧ (∀ key v, reg !! key = Some v →
       (key = "time" ∨ key = "ticker" ∨ key = "place_order") ∧ 0 ≤ v ≤ 4)
  ∧ 0 ≤ counter "time" reg ≤ 3
  ∧ counter "ticker" reg = 0
  ∧ 0 ≤ counter "place_order" reg ≤ 4.
Proof.
  cbv zeta.
  assert (∀ key, is_Some ((serve attempt_registry reqs).2 !! key)
                 ↔ 0 < calls_to key reqs) as Hdom.
  { induction reqs as [|[now_ms r] l IH] using rev_ind; intros key.
    - unfold attempt_registry. simpl. rewrite lookup_empty.
      split; [by intros [? ?] | unfold calls_to; simpl; lia].
    - rewrite serve_snoc, calls_to_snoc. cbn [snd].
      pose proof (calls_to_nonneg key l) as Hn.
      rewrite dispatch_writes. destruct (counter_key r) as [key'|] eqn:Hkey.
      + destruct (decide (key' = key)) as [->|Hne].
        * rewrite lookup_insert_eq, bool_decide_eq_true_2 by done.
          split; [lia | by eexists].
        * rewrite lookup_insert_ne, bool_decide_eq_false_2 by congruence.
          rewrite IH. by rewrite Z.add_0_r.
      + rewrite bool_decide_eq_false_2 by congruence.
        rewrite IH. by rewrite Z.add_0_r. }
  pose proof (time_counter_mod reqs) as Htime.
  pose proof (place_order_counter_mod reqs) as Horder.
  pose proof (ticker_counter_zero reqs) as Hticker.
  assert (0 ≤ counter "time" (serve attempt_registry reqs).2 ≤ 3) as Ht
    by (rewrite Htime; Z.div_mod_to_equations; lia).
  assert (0 ≤ counter "place_order" (serve attempt_registry reqs).2 ≤ 4) as Ho
    by (rewrite Horder; Z.div_mod_to_equations; lia).
  split; [done|]. split; [|done].
  intros key v Hv.
  assert (0 < calls_to key reqs) as Hcalls by (apply Hdom; by eexists).
  assert (key = "time" ∨ key = "ticker" ∨ key = "place_order") as Hkey.
  { unfold calls_to in Hcalls.
    destruct (List.filter _ reqs) as [|[t r] l] eqn:Hf; [simpl in Hcalls; lia|].
    assert (In (t, r) (List.filter
              (fun tr => bool_decide (counter_key tr.2 = Some key)) reqs))
      as Hin by (rewrite Hf; by left).
    apply filter_In in Hin as [_ Hr]. apply bool_decide_eq_true_1 in Hr.
    destruct r; simpl in Hr; try discriminate; injection Hr as <-; tauto. }
  split; [done|].
  assert (counter key (serve attempt_registry reqs).2 = v) as Hc
    by (unfold counter; by rewrite Hv).
  destruct Hkey as [-> | [-> | ->]]; lia.
Qed.

(** Requests on one route share their counter, and requests with the same
    counter are on one route. *)
Lemma endpoint_counter_key r r' :
  endpoint r = endpoint r' → counter_key r = counter_key r'.
Proof. by destruct r, r'. Qed.

Lemma counter_key_endpoint r r' key :
  counter_key r = Some key → counter_key r' = Some key →
  endpoint r = endpoint r'.
Proof. destruct r, r'; simpl; congruence. Qed.

Lemma answers_same_counter route reg reg' reqs :
  (∀ r key, endpoint r = route → counter_key r = Some key →
            reg' !! key = reg !! key) →
  answers_to route reqs (serve reg reqs).1
  = (serve reg' (requests_to route reqs)).1.
Proof.
  unfold answers_to, requests_to. revert reg reg'.
  induction reqs as [|[t r] reqs IH]; intros reg reg' Hsame; [done|].
  simpl.
  destruct (dispatch r t reg) as [resp reg1] eqn:Hd.
  destruct (serve reg1 reqs) as [resps reg2] eqn:Hs. simpl.
  destruct (String.eqb_spec (endpoint r) route) as [Hroute|Hroute].
  - simpl. destruct (dispatch r t reg') as [resp' reg1'] eqn:Hd'.
    destruct (dispatch_reads r t reg reg') as [Hresp Hreg].
    { intros key Hkey. by apply (Hsame r). }
    rewrite Hd, Hd' in Hresp, Hreg. simpl in Hresp, Hreg.
    assert (∀ r' key, endpoint r' = route → counter_key r' = Some key →
                      reg1' !! key = reg1 !! key) as Hsame1.
    { intros r' key Hr' Hkey. apply Hreg.
      rewrite <- Hkey. apply endpoint_counter_key. congruence. }
    specialize (IH reg1 reg1' Hsame1). rewrite Hs in IH. simpl in IH.
    destruct (serve reg1' _) as [resps' reg2']. simpl in *. congruence.
  - specialize (IH reg1 reg'). rewrite Hs in IH. apply IH.
    intros r' key Hr' Hkey. rewrite (Hsame r' key Hr' Hkey).
    replace reg1 with (dispatch r t reg).2 by (by rewrite Hd).
    symmetry. apply dispatch_frame. intros Hkey'.
    apply Hroute. rewrite <- Hr'. by apply (counter_key_endpoint r r' key).
Qed.

(** X2.  What an endpoint answers does not depend on the requests to the
    other endpoints that come in between: for each of the five routes, the
    responses to its requests within any sequence are those it gives when
    its own requests are served alone, from the same registry. *)
Theorem answers_ignore_other_endpoints route reg reqs :
  answers_to route reqs (serve reg reqs).1
  = (serve reg (requests_to route reqs)).1.
Proof. by apply answers_same_counter. Qed.

(** X3.  Requests to the exchange-info and account endpoints alone leave the
    registry as it is, whatever it holds, and all succeed; exchange-info
    echoes the requested symbol, or BTCUSDT when none is given. *)
Theorem stateless_requests_change_nothing reg reqs :
  Forall (fun tr => counter_key tr.2 = None) reqs →
  (serve reg reqs).2 = reg
  ∧ Forall (fun resp => status resp = 200) (serve reg reqs).1
  ∧ ∀ now_ms symbol,
      In (now_ms, GetExchangeInfo symbol) reqs →
      ∃ resp rest,
        In resp (serve reg reqs).1
        ∧ body resp
          = JDict [("symbols",
                    JList [JDict (("symbol", JStr (default "BTCUSDT" symbol))
                                  :: rest)])].
Proof.
  induction 1 as [|[t r] reqs Hr Hall IH]; simpl.
  - split; [done|]. split; [constructor|]. intros ? ? [].
  - destruct r; simpl in Hr; try discriminate; simpl;
      destruct IH as (Hreg & H200 & Hecho);
      destruct (serve reg reqs) as [resps reg']; simpl in *;
      (split; [done|]); (split; [by constructor|]);
      intros now_ms sym [Heq|Hin];
      try (destruct (Hecho now_ms sym Hin) as (resp & rest & Hin' & Hbody);
           exists resp, rest; split; [by right | done]);
      try discriminate.
    injection Heq as <- <-. eexists _, _. split; [by left|]. reflexivity.
Qed.

Lemma stateless_requests_change_nothing_witness :
  (serve (<["time" := 2]> ∅)
     [(0, GetAccount); (5, GetExchangeInfo (Some "ETHUSDT"))]).2
  = <["time" := 2]> ∅.
Proof.
  apply (stateless_requests_change_nothing (<["time" := 2]> ∅)
           [(0, GetAccount); (5, GetExchangeInfo (Some "ETHUSDT"))]).
  repeat constructor.
Defined.

End Service.

Section Retry.

Implicit Types (reg : gmap string Z) (reqs : list (Z * request)).

Lemma mock_time_busy reg t :
  counter "time" reg + 1 < 4 →
  mock_time t reg
  = (Response 503 (JDict [("msg", JStr "Server Busy")]),
     <["time" := counter "time" reg + 1]> reg).
Proof.
  intros Hc. rewrite mock_time_eq. cbv zeta.
  by destruct (Z.ltb_spec (counter "time" reg + 1) 4); [|lia].
Qed.

Lemma mock_time_ready reg t :
  4 ≤ counter "time" reg + 1 →
  mock_time t reg
  = (Response 200 (JDict [("serverTime", JInt t)]), <["time" := 0]> reg).
Proof.
  intros Hc. rewrite mock_time_eq. cbv zeta.
  by destruct (Z.ltb_spec (counter "time" reg + 1) 4); [lia|].
Qed.

Lemma mock_place_order_banned reg t :
  counter "place_order" reg + 1 ≤ 4 →
  (mock_place_order t reg).1.(status) = 418
  ∧ (mock_place_order t reg).2
    = <["place_order" := counter "place_order" reg + 1]> reg.
Proof.
  intros Hc. rewrite mock_place_order_eq. cbv zeta.
  by destruct (Z.leb_spec (counter "place_order" reg + 1) 4); [|lia].
Qed.

Lemma mock_place_order_ready reg t :
  4 < counter "place_order" reg + 1 →
  (mock_place_order t reg).1.(status) = 200
  ∧ (mock_place_order t reg).2 = <["place_order" := 0]> reg.
Proof.
  intros Hc. rewrite mock_place_order_eq. cbv zeta.
  by destruct (Z.leb_spec (counter "place_order" reg + 1) 4); [lia|].
Qed.

Lemma serve_cons reg t r reqs :
  serve reg ((t, r) :: reqs)
  = ((dispatch r t reg).1 :: (serve (dispatch r t reg).2 reqs).1,
     (serve (dispatch r t reg).2 reqs).2).
Proof.
  simpl. destruct (dispatch r t reg) as [resp reg1]. cbn [fst snd].
  by destruct (serve reg1 reqs).
Qed.

(** One call moves the counter one step round its cycle, and answers 200
    exactly when the cycle closes. *)
Lemma time_call reg t :
  0 ≤ counter "time" reg ≤ 3 →
  counter "time" (dispatch GetTime t reg).2 = (counter "time" reg + 1) mod 4
  ∧ status (dispatch GetTime t reg).1
    = (if counter "time" reg =? 3 then 200 else 503).
Proof.
  intros Hc. simpl.
  destruct (Z.eqb_spec (counter "time" reg) 3) as [H3|H3].
  - rewrite mock_time_ready by lia. simpl. rewrite counter_insert_eq.
    by rewrite H3.
  - rewrite mock_time_busy by lia. simpl. rewrite counter_insert_eq.
    rewrite Z.mod_small by lia. done.
Qed.

Lemma order_call reg t :
  0 ≤ counter "place_order" reg ≤ 4 →
  counter "place_order" (dispatch PostOrder t reg).2
  = (counter "place_order" reg + 1) mod 5
  ∧ status (dispatch PostOrder t reg).1
    = (if counter "place_order" reg =? 4 then 200 else 418).
Proof.
  intros Hc. simpl.
  destruct (Z.eqb_spec (counter "place_order" reg) 4) as [H4|H4].
  - destruct (mock_place_order_ready reg t) as [-> ->]; [lia|].
    rewrite counter_insert_eq. by rewrite H4.
  - destruct (mock_place_order_banned reg t) as [-> ->]; [lia|].
    rewrite counter_insert_eq. rewrite Z.mod_small by lia. done.
Qed.

(** Four time calls in a row, from a counter inside the cycle, get exactly
    one 200 and bring the counter back to where it was. *)
Lemma four_time_calls reg (t1 t2 t3 t4 : Z) :
  0 ≤ counter "time" reg ≤ 3 →
  let out := serve reg [(t1, GetTime); (t2, GetTime); (t3, GetTime);
                        (t4, GetTime)] in
  length (List.filter (fun resp => status resp =? 200) out.1) = 1%nat
  ∧ counter "time" out.2 = counter "time" reg.
Proof.
  intros Hc. cbv zeta. rewrite !serve_cons. cbn [serve fst snd].
  set (r1 := (dispatch GetTime t1 reg).2).
  set (r2 := (dispatch GetTime t2 r1).2).
  set (r3 := (dispatch GetTime t3 r2).2).
  destruct (time_call reg t1 Hc) as [Hc1 Hs1]. fold r1 in Hc1.
  assert (0 ≤ counter "time" r1 ≤ 3) as Hr1
    by (rewrite Hc1; Z.div_mod_to_equations; lia).
  destruct (time_call r1 t2 Hr1) as [Hc2 Hs2]. fold r2 in Hc2.
  assert (0 ≤ counter "time" r2 ≤ 3) as Hr2
    by (rewrite Hc2; Z.div_mod_to_equations; lia).
  destruct (time_call r2 t3 Hr2) as [Hc3 Hs3]. fold r3 in Hc3.
  assert (0 ≤ counter "time" r3 ≤ 3) as Hr3
    by (rewrite Hc3; Z.div_mod_to_equations; lia).
  destruct (time_call r3 t4 Hr3) as [Hc4 Hs4].
  split; [|rewrite Hc4, Hc3, Hc2, Hc1; Z.div_mod_to_equations; lia].
  cbn [List.filter]. rewrite Hs1, Hs2, Hs3, Hs4.
  destruct (Z.eqb_spec (counter "time" reg) 3),
    (Z.eqb_spec (counter "time" r1) 3), (Z.eqb_spec (counter "time" r2) 3),
    (Z.eqb_spec (counter "time" r3) 3); simpl; try reflexivity;
    exfalso; Z.div_mod_to_equations; lia.
Qed.

(** Five order calls in a row, likewise. *)
Lemma five_order_calls reg (t1 t2 t3 t4 t5 : Z) :
  0 ≤ counter "place_order" reg ≤ 4 →
  let out := serve reg [(t1, PostOrder); (t2, PostOrder); (t3, PostOrder);
                        (t4, PostOrder); (t5, PostOrder)] in
  length (List.filter (fun resp => status resp =? 200) out.1) = 1%nat
  ∧ counter "place_order" out.2 = counter "place_order" reg.
Proof.
  intros Hc. cbv zeta. rewrite !serve_cons. cbn [serve fst snd].
  set (r1 := (dispatch PostOrder t1 reg).2).
  set (r2 := (dispatch PostOrder t2 r1).2).
  set (r3 := (dispatch PostOrder t3 r2).2).
  set (r4 := (dispatch PostOrder t4 r3).2).
  destruct (order_call reg t1 Hc) as [Hc1 Hs1]. fold r1 in Hc1.
  assert (0 ≤ counter "place_order" r1 ≤ 4) as Hr1
    by (rewrite Hc1; Z.div_mod_to_equations; lia).
  destruct (order_call r1 t2 Hr1) as [Hc2 Hs2]. fold r2 in Hc2.
  assert (0 ≤ counter "place_order" r2 ≤ 4) as Hr2
    by (rewrite Hc2; Z.div_mod_to_equations; lia).
  destruct (order_call r2 t3 Hr2) as [Hc3 Hs3]. fold r3 in Hc3.
  assert (0 ≤ counter "place_order" r3 ≤ 4) as Hr3
    by (rewrite Hc3; Z.div_mod_to_equations; lia).
  destruct (order_call r3 t4 Hr3) as [Hc4 Hs4]. fold r4 in Hc4.
  assert (0 ≤ counter "place_order" r4 ≤ 4) as Hr4
    by (rewrite Hc4; Z.div_mod_to_equations; lia).
  destruct (order_call r4 t5 Hr4) as [Hc5 Hs5].
  split; [|rewrite Hc5, Hc4, Hc3, Hc2, Hc1; Z.div_mod_to_equations; lia].
  cbn [List.filter]. rewrite Hs1, Hs2, Hs3, Hs4, Hs5.
  destruct (Z.eqb_spec (counter "place_order" reg) 4),
    (Z.eqb_spec (counter "place_order" r1) 4),
    (Z.eqb_spec (counter "place_order" r2) 4),
    (Z.eqb_spec (counter "place_order" r3) 4),
    (Z.eqb_spec (counter "place_order" r4) 4); simpl; try reflexivity;
    exfalso; Z.div_mod_to_equations; lia.
Qed.

(** X4.  A client that retries gets through: at any point of any run of the
    service, four time calls in a row contain exactly one success and five
    order calls in a row contain exactly one success, and each leaves the
    endpoint's counter where it was. *)
Theorem retries_succeed_once_per_cycle reqs (t1 t2 t3 t4 t5 : Z) :
  let reg := (serve attempt_registry reqs).2 in
  let times := serve reg [(t1, GetTime); (t2, GetTime); (t3, GetTime);
                          (t4, GetTime)] in
  let orders := serve reg [(t1, PostOrder); (t2, PostOrder); (t3, PostOrder);
                           (t4, PostOrder); (t5, PostOrder)] in
  length (List.filter (fun resp => status resp =? 200) times.1) = 1%nat
  ∧ counter "time" times.2 = counter "time" reg
  ∧ length (List.filter (fun resp => status resp =? 200) orders.1) = 1%nat
  ∧ counter "place_order" orders.2 = counter "place_order" reg.
Proof.
  cbv zeta.
  destruct (four_time_calls (serve attempt_registry reqs).2 t1 t2 t3 t4)
    as [? ?].
  { rewrite time_counter_mod. Z.div_mod_to_equations. lia. }
  destruct (five_order_calls (serve attempt_registry reqs).2 t1 t2 t3 t4 t5)
    as [? ?].
  { rewrite place_order_counter_mod. Z.div_mod_to_equations. lia. }
  done.
Qed.

End Retry.

(** * Further properties of the driver *)

Section Substrings.

Implicit Types (needle hay s pre post : string).

Lemma append_cons c s post : String c s +:+ post = String c (s +:+ post).
Proof. reflexivity. Qed.

Lemma append_empty post : "" +:+ post = post.
Proof. reflexivity. Qed.

Lemma prefix_iff needle hay :
  String.prefix needle hay = true ↔ ∃ post, hay = needle +:+ post.
Proof.
  revert hay. induction needle as [|c needle IH]; intros hay.
  - split; [intros _; by exists hay | by destruct hay].
  - destruct hay as [|c' hay]; simpl.
    + split; [done | intros [post Hpost]; discriminate].
    + destruct (Ascii.ascii_dec c c') as [<-|Hne].
      * rewrite IH. split; intros [post Hpost]; exists post;
          rewrite append_cons in *; congruence.
      * split; [done|]. intros [post Hpost].
        rewrite append_cons in Hpost. congruence.
Qed.


End Substrings.




Section Rendering.

Implicit Types (old new s pre post tok : string).

Lemma replace_absent old new s :
  contains old s = false → replace old new s = s.
Proof.
  unfold replace. induction s as [|c s IH]; [done|].
  cbn [contains replace_from]. intros Habsent.
  apply orb_false_iff in Habsent as [-> Hrest]. by rewrite IH.
Qed.

Lemma replace_skip old new x post :
  replace_from old new (String.length x) (x +:+ post) = replace old new post.
Proof.
  unfold replace. induction x as [|c x IH]; [|by rewrite append_cons].
  rewrite append_empty. destruct post; reflexivity.
Qed.

Lemma prefix_empty s : String.prefix "" s = true.
Proof. by destruct s. Qed.

Lemma no_brace_cons c s :
  no_brace (String c s) = true ↔ c ≠ "{"%char ∧ no_brace s = true.
Proof.
  unfold no_brace. cbn [contains String.prefix].
  destruct (Ascii.ascii_dec "{" c) as [<-|Hne].
  - rewrite prefix_empty. simpl. split; [done | by intros [? _]].
  - rewrite orb_false_l. split; [intros; split; congruence | by intros [_ ?]].
Qed.

Lemma no_brace_app s post :
  no_brace s = true → no_brace post = true → no_brace (s +:+ post) = true.
Proof.
  intros Hs Hpost. induction s as [|c s IH]; [done|].
  rewrite append_cons. apply no_brace_cons in Hs as [Hc Hs].
  apply no_brace_cons. auto.
Qed.

(** A text without a brace holds no placeholder. *)
Lemma no_brace_absent old' s :
  no_brace s = true → contains (String "{" old') s = false.
Proof.
  induction s as [|c s IH]; [done|]. intros Hs.
  apply no_brace_cons in Hs as [Hc Hs]. cbn [contains String.prefix].
  destruct (Ascii.ascii_dec "{" c) as [<-|_]; [done|]. by apply IH.
Qed.

(** [str n] is made of digits and a sign. *)
Lemma no_brace_str (n : Z) : no_brace (str n) = true.
Proof.
  assert (∀ d, no_brace (NilEmpty.string_of_uint d) = true) as Huint.
  { induction d; simpl; [reflexivity|..];
      apply no_brace_cons; (split; [discriminate | done]). }
  assert (∀ d, no_brace (NilZero.string_of_uint d) = true) as Hzero.
  { intros d. unfold NilZero.string_of_uint.
    destruct d; try reflexivity; apply Huint. }
  unfold str, NilZero.string_of_int. destruct (Z.to_int n) as [d|d].
  - apply Hzero.
  - apply no_brace_cons. split; [discriminate | apply Hzero].
Qed.

(** A placeholder between brace-free texts is replaced where it stands. *)
Lemma replace_placeholder old' new pre post :
  no_brace pre = true → no_brace post = true →
  replace (String "{" old') new (pre +:+ String "{" old' +:+ post)
  = pre +:+ new +:+ post.
Proof.
  intros Hpre Hpost. induction pre as [|c pre IH].
  - rewrite append_empty. unfold replace. rewrite append_cons.
    cbn [replace_from]. rewrite <- append_cons.
    rewrite (proj2 (prefix_iff _ _)) by (by exists post).
    rewrite append_empty. f_equal. cbn [String.length].
    replace (S (String.length old') - 1)%nat with (String.length old') by lia.
    rewrite replace_skip. apply replace_absent. by apply no_brace_absent.
  - apply no_brace_cons in Hpre as [Hc Hpre]. rewrite !(append_cons c pre).
    unfold replace in *. cbn [replace_from String.prefix].
    destruct (Ascii.ascii_dec "{" c) as [<-|_]; [done|].
    by rewrite IH.
Qed.

(** The other placeholder is no occurrence of this one. *)
Lemma other_placeholder_absent pre post :
  no_brace pre = true → no_brace post = true →
  contains "{i}" (pre +:+ "{ts}" +:+ post) = false.
Proof.
  intros Hpre Hpost. induction pre as [|c pre IH].
  - rewrite append_empty.
    change ("{ts}" +:+ post) with (String "{" (String "t" (String "s"
                                      (String "}" post)))).
    cbn [contains String.prefix]. simpl.
    destruct post as [|c post]; [reflexivity|].
    fold (contains "{i}" (String c post)).
    by apply (no_brace_absent "i}").
  - apply no_brace_cons in Hpre as [Hc Hpre]. rewrite append_cons.
    cbn [contains String.prefix].
    destruct (Ascii.ascii_dec "{" c) as [<-|_]; [done|]. by apply IH.
Qed.

End Rendering.

(** X6.  [render_command] keeps the number and the order of the tokens.  A
    token in which no placeholder occurs is returned unchanged; in a token
    with one placeholder and no other brace, [{i}] becomes the iteration
    number and [{ts}] the timestamp, in decimal. *)
Theorem render_command_tokens (timestamp_ms i : Z) (args : list string) :
  length (render_command timestamp_ms args i) = length args
  ∧ ∀ (k : nat) tok,
      nth_error args k = Some tok →
      ∃ out,
        nth_error (render_command timestamp_ms args i) k = Some out
        ∧ (contains "{i}" tok = false → contains "{ts}" tok = false →
           out = tok)
        ∧ (∀ pre post,
             no_brace pre = true → no_brace post = true →
             tok = pre +:+ "{i}" +:+ post →
             out = pre +:+ str i +:+ post)
        ∧ (∀ pre post,
             no_brace pre = true → no_brace post = true →
             tok = pre +:+ "{ts}" +:+ post →
             out = pre +:+ str timestamp_ms +:+ post).
Proof.
  unfold render_command. split; [apply length_map|].
  intros k tok Hk. eexists. split.
  { rewrite nth_error_map, Hk. reflexivity. }
  split; [|split].
  - intros Hi Hts. rewrite (replace_absent "{i}") by done.
    by apply replace_absent.
  - intros pre post Hpre Hpost ->.
    rewrite (replace_placeholder "i}") by done.
    apply replace_absent, (no_brace_absent "ts}").
    apply no_brace_app; [done|]. apply no_brace_app; [|done].
    apply no_brace_str.
  - intros pre post Hpre Hpost ->.
    rewrite (replace_absent "{i}") by (by apply other_placeholder_absent).
    by apply (replace_placeholder "ts}").
Qed.

Lemma render_command_tokens_witness :
  let rendered :=
    render_command 1700000000000 ["cancel"; "--id"; "{i}"; "run-{ts}.log"] 7 in
  nth_error rendered 1 = Some "--id"
  ∧ nth_error rendered 2 = Some "7"
  ∧ nth_error rendered 3 = Some "run-1700000000000.log".
Proof.
  intros rendered.
  pose proof (render_command_tokens 1700000000000 7
                ["cancel"; "--id"; "{i}"; "run-{ts}.log"]) as [_ Htok].
  fold rendered in Htok.
  destruct (Htok 1%nat "--id" eq_refl) as (o1 & H1 & Hsame & _).
  destruct (Htok 2%nat "{i}" eq_refl) as (o2 & H2 & _ & Hi & _).
  destruct (Htok 3%nat "run-{ts}.log" eq_refl) as (o3 & H3 & _ & _ & Hts).
  pose proof (Hsame eq_refl eq_refl) as E1.
  pose proof (Hi "" "" eq_refl eq_refl eq_refl) as E2.
  pose proof (Hts "run-" ".log" eq_refl eq_refl eq_refl) as E3.
  split; [|split].
  - rewrite H1. f_equal. exact E1.
  - rewrite H2. f_equal. exact E2.
  - rewrite H3. f_equal. exact E3.
Defined.

Section Counting.

Context (w : world) (args : Namespace) (cli : list string).
Implicit Types (t : tallies) (i : Z) (indices : list Z).

Lemma count_cons (f : Z → bool) i indices :
  count f (i :: indices) = (if f i then 1 else 0) + count f indices.
Proof. unfold count. simpl. destruct (f i); simpl; lia. Qed.

Lemma count_range (f : Z → bool) indices :
  0 ≤ count f indices ≤ Z.of_nat (length indices).
Proof.
  induction indices as [|i indices IH]; [by compute|].
  rewrite count_cons. simpl length. destruct (f i); lia.
Qed.

Lemma count_zero (f : Z → bool) indices :
  count f indices = 0 ↔ ∀ i, In i indices → f i = false.
Proof.
  induction indices as [|i indices IH]; [by split|].
  rewrite count_cons. pose proof (count_range f indices). split.
  - intros Hsum j [<-|Hj].
    + destruct (f i); [lia|done].
    + apply IH; [|done]. destruct (f i); lia.
  - intros Hall. rewrite (Hall i) by (by left).
    rewrite (proj2 IH); [done|]. intros j Hj. apply Hall. by right.
Qed.

(** Each counter of the loop grows by the number of iterations of its
    kind. *)
Lemma loop_counts t indices :
  let final := (loop w args (base_cmd args) cli t indices).1 in
  crashes final
  = crashes t
    + count (fun i => times_out w args cli i || negb (exits_zero w args cli i))
        indices
  ∧ rate_limits final
    = rate_limits t
      + count (fun i => in_time w args cli i
                        && shows "Rate limit exceeded" w args cli i) indices
  ∧ successes final
    = successes t
      + count (fun i => in_time w args cli i
                        && negb (shows "Rate limit exceeded" w args cli i)
                        && exits_zero w args cli i) indices
  ∧ retriable_seen final
    = retriable_seen t
      + count (fun i => in_time w args cli i
                        && shows "Retriable error" w args cli i) indices.
Proof.
  revert t. induction indices as [|i indices IH]; intros t.
  - simpl. unfold count. simpl. lia.
  - rewrite loop_cons. cbv zeta. cbn [fst].
    destruct (IH (iteration w args (base_cmd args) cli t i).1)
      as (Hc & Hr & Hs & Hy).
    rewrite Hc, Hr, Hs, Hy, !count_cons. clear Hc Hr Hs Hy IH.
    unfold in_time, shows, exits_zero, outcome.
    destruct (times_out w args cli i) eqn:Hout.
    + rewrite iteration_timeout by done. simpl. lia.
    + destruct (iteration_completed w args cli t i Hout)
        as (Hc & _ & Hr & Hs & Hy & _).
      rewrite Hc, Hr, Hs, Hy. simpl.
      destruct (contains "Rate limit exceeded" _),
        (contains "Retriable error" _), (returncode _ =? 0); simpl; lia.
Qed.

End Counting.

Section Effects.

Context (w : world) (args : Namespace) (cli : list string).
Implicit Types (t : tallies) (i : Z) (indices : list Z).
Implicit Types (events : list event).

Lemma created_app events events' :
  created (events ++ events') = created events ++ created events'.
Proof.
  induction events as [|e events IH]; [done|]. destruct e; simpl; by rewrite IH.
Qed.

Lemma logged_app events events' :
  logged (events ++ events') = logged events ++ logged events'.
Proof.
  induction events as [|e events IH]; [done|]. destruct e; simpl; by rewrite IH.
Qed.

Lemma echoed_app events events' :
  echoed (events ++ events') = echoed events ++ echoed events'.
Proof.
  induction events as [|e events IH]; [done|]. destruct e; simpl; by rewrite IH.
Qed.

Lemma slept_app events events' :
  slept (events ++ events') = slept events ++ slept events'.
Proof.
  induction events as [|e events IH]; [done|]. destruct e; simpl; by rewrite IH.
Qed.

Lemma summaries_app events events' :
  summaries (events ++ events') = summaries events ++ summaries events'.
Proof.
  induction events as [|e events IH]; [done|]. destruct e; simpl; by rewrite IH.
Qed.

(** The optional effects of one iteration: only an iteration that ends in
    time logs, echoes or pauses, and none creates a directory or prints a
    summary. *)
Lemma iteration_effects t i :
  let events := (iteration w args (base_cmd args) cli t i).2 in
  let out := stdout (outcome w args cli i) in
  created events = []
  ∧ summaries events = []
  ∧ logged events
    = (if in_time w args cli i && negb (String.eqb (log_dir args) "")
       then [(log_dir args, i, out)] else [])
  ∧ echoed events
    = (if in_time w args cli i && verbose args then [out] else [])
  ∧ slept events
    = (if in_time w args cli i && Qlt_bool 0 (sleep args)
       then [sleep args] else []).
Proof.
  cbv zeta. unfold in_time, outcome.
  destruct (times_out w args cli i) eqn:Hout.
  - rewrite iteration_timeout by done. done.
  - unfold times_out in Hout. unfold iteration, run_once.
    fold (cmd_of w args cli i). rewrite Hout. cbv zeta.
    cbn [exit_code duration output retriable rate_limit].
    unfold write_log.
    destruct (contains "Rate limit exceeded" _), (returncode _ =? 0),
      (String.eqb (log_dir args) ""), (verbose args),
      (Qlt_bool 0 (sleep args)); repeat split; reflexivity.
Qed.

Lemma loop_effects t indices :
  let events := (loop w args (base_cmd args) cli t indices).2 in
  let done_in_time := List.filter (in_time w args cli) indices in
  created events = []
  ∧ summaries events = []
  ∧ logged events
    = (if String.eqb (log_dir args) "" then []
       else map (fun i => (log_dir args, i, stdout (outcome w args cli i)))
              done_in_time)
  ∧ echoed events
    = (if verbose args
       then map (fun i => stdout (outcome w args cli i)) done_in_time
       else [])
  ∧ slept events
    = (if Qlt_bool 0 (sleep args)
       then map (fun _ => sleep args) done_in_time else []).
Proof.
  revert t. induction indices as [|i indices IH]; intros t.
  - simpl. by destruct (String.eqb _ _), (verbose args), (Qlt_bool _ _).
  - rewrite loop_cons. cbv zeta. cbn [snd].
    destruct (iteration_effects t i) as (Hc & Hs & Hl & He & Hp).
    destruct (IH (iteration w args (base_cmd args) cli t i).1)
      as (Hc' & Hs' & Hl' & He' & Hp').
    rewrite created_app, summaries_app, logged_app, echoed_app, slept_app.
    rewrite Hc, Hs, Hl, He, Hp, Hc', Hs', Hl', He', Hp'. simpl.
    destruct (in_time w args cli i), (String.eqb (log_dir args) ""),
      (verbose args), (Qlt_bool 0 (sleep args)); done.
Qed.

End Effects.

(** X7.  The summary says what happened: for fewer than 2^53 iterations
    exactly one summary is printed, and its counters are the numbers of
    iterations of each kind.  A crash is a
    timeout or a non-zero exit code; a rate limit is a run that ended in
    time with the rate-limit marker in its output; a success is a run that
    ended in time with exit code 0 and no rate-limit marker; the retriable
    count is the runs that ended in time with the retriable marker. *)
Theorem summary_counts (w : world) (args : Namespace) :
  cli_args args ≠ [] →
  iterations args < 2 ^ 53 →
  let cli := cli_args args in
  let all := range 1 (iterations args + 1) in
  ∃ report,
    summaries (main w args).2 = [report]
    ∧ sum_command report = String.concat " " cli
    ∧ sum_iterations report = iterations args
    ∧ sum_crashes report
      = count (fun i => times_out w args cli i
                        || negb (exits_zero w args cli i)) all
    ∧ sum_rate_limits report
      = count (fun i => in_time w args cli i
                        && shows "Rate limit exceeded" w args cli i) all
    ∧ sum_successes report
      = count (fun i => in_time w args cli i
                        && negb (shows "Rate limit exceeded" w args cli i)
                        && exits_zero w args cli i) all
    ∧ sum_retriable_seen report
      = count (fun i => in_time w args cli i
                        && shows "Retriable error" w args cli i) all
    ∧ (main w args).1 = Return (if 0 <? sum_crashes report then 2 else 0).
Proof.
  intros Hcli Hn. cbv zeta.
  destruct (main_report w args Hcli Hn)
    as (avg & p50 & p95 & _ & _ & _ & _ & Hmain).
  destruct (loop_counts w args (cli_args args) tallies0
              (range 1 (iterations args + 1))) as (Hc & Hr & Hs & Hy).
  fold (run w args (cli_args args)) in Hc, Hr, Hs, Hy.
  destruct (loop_effects w args (cli_args args) tallies0
              (range 1 (iterations args + 1))) as (_ & Hsum & _).
  fold (run w args (cli_args args)) in Hsum.
  eexists. rewrite Hmain. cbn [fst snd].
  rewrite !summaries_app, Hsum.
  split.
  { destruct (String.eqb (log_dir args) ""); reflexivity. }
  cbn [sum_command sum_iterations sum_crashes sum_rate_limits sum_successes
       sum_retriable_seen].
  rewrite Hc, Hr, Hs, Hy. simpl. done.
Qed.

Lemma summary_counts_witness :
  ∃ report,
    summaries (main quiet defaults).2 = [report]
    ∧ sum_iterations report = 50
    ∧ sum_successes report = 50
    ∧ sum_crashes report = 0.
Proof.
  assert (cli_args defaults ≠ []) as Hcli by discriminate.
  assert (iterations defaults < 2 ^ 53) as Hfew by reflexivity.
  destruct (summary_counts quiet defaults Hcli Hfew)
    as (report & Hsum & _ & Hn & Hc & _ & Hs & _).
  exists report. split; [exact Hsum|]. split; [exact Hn|].
  split; [rewrite Hs | rewrite Hc]; reflexivity.
Defined.

(** X8.  The exit code 0 means that every iteration succeeded: if [main]
    returns 0, there was a command to run and every iteration's process
    ended within the timeout with exit code 0; and, for fewer than 2^53
    iterations, [main] returns 0 whenever that is so. *)
Theorem exit_code_meaning (w : world) (args : Namespace) :
  let all_succeed :=
    ∀ i, 1 ≤ i ≤ iterations args →
         times_out w args (cli_args args) i = false
         ∧ returncode (outcome w args (cli_args args) i) = 0 in
  ((main w args).1 = Return 0 → cli_args args ≠ [] ∧ all_succeed)
  ∧ (cli_args args ≠ [] → iterations args < 2 ^ 53 → all_succeed →
     (main w args).1 = Return 0).
Proof.
  cbv zeta.
  set (crash := fun i => times_out w args (cli_args args) i
                         || negb (exits_zero w args (cli_args args) i)).
  pose proof (count_range crash (range 1 (iterations args + 1))) as Hrange.
  pose proof (count_zero crash (range 1 (iterations args + 1))) as Hzero.
  destruct (loop_counts w args (cli_args args) tallies0
              (range 1 (iterations args + 1))) as (Hc & _).
  fold (run w args (cli_args args)) in Hc. simpl in Hc.
  rewrite Z.add_0_l in Hc. fold crash in Hc.
  split.
  - intros Hexit.
    destruct (decide (cli_args args = [])) as [Hnil|Hcli].
    { unfold main in Hexit. rewrite Hnil in Hexit. discriminate Hexit. }
    split; [done|]. intros i Hi.
    destruct (Z.le_gt_cases 1 (crashes (run w args (cli_args args)).1))
      as [Hcrash|Hnone].
    { by destruct (main_not_zero w args Hcli Hcrash). }
    assert (crash i = false) as Hi'.
    { apply Hzero; [lia|]. apply range_In. lia. }
    unfold crash, exits_zero in Hi'.
    apply orb_false_iff in Hi' as [Hout Hzero'].
    split; [done|]. apply negb_false_iff in Hzero'. lia.
  - intros Hcli Hn Hall.
    destruct (main_runs w args Hcli Hn) as (report & -> & _). cbn [fst].
    assert (count crash (range 1 (iterations args + 1)) = 0) as Hnone.
    { apply Hzero. intros i Hi. apply range_In in Hi.
      destruct (Hall i) as [Hout Hexit]; [lia|].
      unfold crash, exits_zero. rewrite Hout, Hexit. done. }
    rewrite Hc, Hnone. done.
Qed.

Lemma exit_code_meaning_witness :
  (main quiet defaults).1 = Return 0.
Proof.
  apply (exit_code_meaning quiet defaults).
  - discriminate.
  - reflexivity.
  - intros i Hi. split; reflexivity.
Defined.

(** X9.  With no iteration to run ([--iterations] 0 or less), [main] spawns
    nothing, prints a summary of zeros and returns 0. *)
Theorem no_iterations (w : world) (args : Namespace) :
  cli_args args ≠ [] →
  iterations args ≤ 0 →
  main w args
  = (Return 0,
     (if String.eqb (log_dir args) "" then [] else [Makedirs (log_dir args)])
     ++ [PrintSummary
           {| sum_command := String.concat " " (cli_args args);
              sum_iterations := iterations args;
              sum_successes := 0;
              sum_rate_limits := 0;
              sum_retriable_seen := 0;
              sum_crashes := 0;
              sum_avg := Finite 0;
              sum_p50 := 0;
              sum_p95 := 0;
              sum_min := 0;
              sum_max := 0 |}]).
Proof.
  intros Hcli Hn. unfold main.
  destruct (cli_args args) as [|c cs] eqn:Hc; [done|].
  unfold run. rewrite range_empty by lia. reflexivity.
Qed.

Lemma no_iterations_witness :
  (main slow_second
     {| jar := "order-manager.jar"; iterations := 0; sleep := 0;
        timeout := 30; log_dir := "logs"; verbose := true;
        command := ["--"; "list"] |}).1 = Return 0.
Proof.
  rewrite (no_iterations slow_second
             {| jar := "order-manager.jar"; iterations := 0; sleep := 0;
                timeout := 30; log_dir := "logs"; verbose := true;
                command := ["--"; "list"] |}).
  - reflexivity.
  - discriminate.
  - simpl. lia.
Defined.

(** X10.  The trace records a log file exactly for the iterations that ended in
    time, and only when a log directory is configured; the directory is
    created first, before anything is spawned. *)
Theorem log_files (w : world) (args : Namespace) :
  cli_args args ≠ [] →
  let cli := cli_args args in
  let done_in_time :=
    List.filter (in_time w args cli) (range 1 (iterations args + 1)) in
  (log_dir args = "" →
   created (main w args).2 = [] ∧ logged (main w args).2 = [])
  ∧ (log_dir args ≠ "" →
     (∃ rest, (main w args).2 = Makedirs (log_dir args) :: rest)
     ∧ created (main w args).2 = [log_dir args]
     ∧ logged (main w args).2
       = map (fun i => (log_dir args, i, stdout (outcome w args cli i)))
           done_in_time).
Proof.
  intros Hcli. cbv zeta.
  destruct (main_trace w args Hcli) as (tail & -> & Htail).
  assert (created tail = [] ∧ logged tail = []) as [Hct Hlt]
    by (by destruct Htail as [-> | [report ->]]).
  destruct (loop_effects w args (cli_args args) tallies0
              (range 1 (iterations args + 1))) as (Hc & _ & Hl & _).
  fold (run w args (cli_args args)) in Hc, Hl.
  rewrite !created_app, !logged_app, Hc, Hl, Hct, Hlt, !app_nil_r.
  destruct (String.eqb_spec (log_dir args) "") as [Hdir|Hdir].
  - split; [done|]. intros Hne. by destruct Hne.
  - split; [done|]. intros _. simpl.
    split; [by eexists | done].
Qed.

Lemma log_files_witness :
  logged (main slow_second
            {| jar := "order-manager.jar"; iterations := 3; sleep := 0;
               timeout := 30; log_dir := "logs"; verbose := false;
               command := ["list"] |}).2
  = [("logs", 1, "ok"); ("logs", 3, "ok")].
Proof.
  pose proof (log_files slow_second
                {| jar := "order-manager.jar"; iterations := 3; sleep := 0;
                   timeout := 30; log_dir := "logs"; verbose := false;
                   command := ["list"] |}) as Hlog.
  destruct Hlog as [_ Hdir]; [discriminate|].
  destruct Hdir as (_ & _ & ->); [discriminate|]. reflexivity.
Defined.

(** X11.  The output is echoed only in verbose mode, and the driver pauses only
    for a positive [--sleep]; both happen once for every iteration that
    ended in time, and never after a timeout. *)
Theorem echo_and_pacing (w : world) (args : Namespace) :
  cli_args args ≠ [] →
  let cli := cli_args args in
  let done_in_time :=
    List.filter (in_time w args cli) (range 1 (iterations args + 1)) in
  echoed (main w args).2
  = (if verbose args
     then map (fun i => stdout (outcome w args cli i)) done_in_time
     else [])
  ∧ ((0 < sleep args)%Q →
     slept (main w args).2 = map (fun _ => sleep args) done_in_time)
  ∧ ((sleep args <= 0)%Q → slept (main w args).2 = []).
Proof.
  intros Hcli. cbv zeta.
  destruct (main_trace w args Hcli) as (tail & -> & Htail).
  assert (echoed tail = [] ∧ slept tail = []) as [Het Hst]
    by (by destruct Htail as [-> | [report ->]]).
  destruct (loop_effects w args (cli_args args) tallies0
              (range 1 (iterations args + 1))) as (_ & _ & _ & He & Hp).
  fold (run w args (cli_args args)) in He, Hp.
  rewrite !echoed_app, !slept_app, He, Hp, Het, Hst, !app_nil_r.
  assert (∀ made, made = [] ∨ made = [Makedirs (log_dir args)] →
                  echoed made = [] ∧ slept made = []) as Hmade
    by (by intros made [-> | ->]).
  destruct (Hmade (if String.eqb (log_dir args) "" then []
                   else [Makedirs (log_dir args)])) as [-> ->].
  { destruct (String.eqb (log_dir args) ""); auto. }
  simpl. split; [done|].
  split; intros Hsleep.
  - by rewrite (proj2 (Qlt_bool_iff 0 (sleep args)) Hsleep).
  - by rewrite (proj2 (Qlt_bool_false 0 (sleep args)) Hsleep).
Qed.

Lemma echo_and_pacing_witness :
  slept (main slow_second
           {| jar := "order-manager.jar"; iterations := 3; sleep := 0.2;
              timeout := 30; log_dir := ""; verbose := true;
              command := ["list"] |}).2
  = [0.2; 0.2]%Q.
Proof.
  pose proof (echo_and_pacing slow_second
                {| jar := "order-manager.jar"; iterations := 3; sleep := 0.2;
                   timeout := 30; log_dir := ""; verbose := true;
                   command := ["list"] |}) as Hpace.
  destruct Hpace as (_ & -> & _); [discriminate | reflexivity | reflexivity].
Defined.

(** * Further properties of the percentile *)

Section PercentileOrder.

Implicit Types (x y u v p q : Q) (xs ys l : list Q).

Lemma clamped_index_mono c c' n :
  c ≤ c' → clamped_index c n ≤ clamped_index c' n.
Proof. unfold clamped_index. lia. Qed.

(** The ceiling of the rounded product grows with the proportion. *)
Lemma ceil_of_product_mono p q n c c' :
  0 ≤ n < 2 ^ 53 → (p <= q)%Q →
  ceil_of_product (Finite p) n = Value c →
  ceil_of_product (Finite q) n = Value c' → c ≤ c'.
Proof.
  intros Hn Hpq. rewrite !ceil_of_product_exact by done.
  destruct (round (p * inject_Z n)) as [r| |] eqn:Hr; try done.
  destruct (round (q * inject_Z n)) as [r'| |] eqn:Hr'; try done.
  simpl. intros [= <-] [= <-]. apply Qceiling_resp_le.
  apply (round_mono (p * inject_Z n) (q * inject_Z n)); [|done..].
  apply Qmult_le_compat_r; [done|].
  change 0%Q with (inject_Z 0). rewrite <- Zle_Qle. lia.
Qed.

Lemma percentile_In xs pct v :
  xs ≠ [] → percentile xs pct = Value v → In v xs.
Proof.
  intros Hxs Hv. pose proof (percentile_nonempty xs pct Hxs) as Hp.
  destruct (ceil_of_product _ _); [|congruence].
  destruct Hp as (v' & Hv' & _ & Hin). congruence.
Qed.

(** The values returned for two proportions are in the order of the
    proportions. *)
Lemma percentile_order xs p q u v :
  Z.of_nat (length xs) < 2 ^ 53 → (p <= q)%Q →
  percentile xs (Finite p) = Value u → percentile xs (Finite q) = Value v →
  (u <= v)%Q.
Proof.
  intros Hlen Hpq Hu Hv. destruct xs as [|x xs].
  { injection Hu as <-. injection Hv as <-. apply Qle_refl. }
  set (ys := x :: xs) in *.
  pose proof (percentile_nonempty ys (Finite p)) as Hp.
  pose proof (percentile_nonempty ys (Finite q)) as Hq.
  destruct (ceil_of_product (Finite p) _) as [c|] eqn:Hc;
    [|rewrite Hp in Hu; done].
  destruct (ceil_of_product (Finite q) _) as [c'|] eqn:Hc';
    [|rewrite Hq in Hv; done].
  destruct Hp as (u' & Hu' & Hnu & _); [done|].
  destruct Hq as (v' & Hv' & Hnv & _); [done|].
  assert (u' = u) as -> by congruence. assert (v' = v) as -> by congruence.
  assert (0 ≤ Z.of_nat (length ys) < 2 ^ 53) as Hn by lia.
  pose proof (ceil_of_product_mono p q _ c c' Hn Hpq Hc Hc') as Hcc.
  pose proof (clamped_index_mono c c' (Z.of_nat (length ys)) Hcc) as Hmono.
  pose proof (clamped_index_range c (Z.of_nat (length ys))) as Hrange.
  apply (ascending_nth (sorted ys)
           (Z.to_nat (clamped_index c (Z.of_nat (length ys))))
           (Z.to_nat (clamped_index c' (Z.of_nat (length ys)))));
    [apply sorted_ascending| |done..].
  simpl length in *. lia.
Qed.

End PercentileOrder.

(** X12.  A larger proportion never gives a smaller value.  For a list of
    fewer than 2^53 durations, the values returned for two proportions are
    in the order of the proportions, and for proportions between 0 and 1
    both values are returned. *)
Theorem percentile_monotone (xs : list Q) (p q : Q) :
  Z.of_nat (length xs) < 2 ^ 53 → (p <= q)%Q →
  (∀ u v, percentile xs (Finite p) = Value u →
          percentile xs (Finite q) = Value v → (u <= v)%Q)
  ∧ ((0 <= p)%Q → (q <= 1)%Q →
     ∃ u v, percentile xs (Finite p) = Value u
            ∧ percentile xs (Finite q) = Value v ∧ (u <= v)%Q).
Proof.
  intros Hlen Hpq. split.
  - intros u v. by apply percentile_order.
  - intros Hp Hq.
    destruct (percentile_small xs p) as [u Hu]; [done|done|lra|].
    destruct (percentile_small xs q) as [v Hv]; [done|lra|done|].
    exists u, v. split; [done|]. split; [done|].
    by apply (percentile_order xs p q).
Qed.

Lemma percentile_monotone_witness :
  ∃ u v, percentile [4; 1; 3; 2]%Q (Finite (1 # 2)) = Value u
         ∧ percentile [4; 1; 3; 2]%Q (Finite 1) = Value v ∧ (u <= v)%Q.
Proof.
  apply (percentile_monotone [4; 1; 3; 2]%Q (1 # 2) 1); try reflexivity;
    discriminate.
Defined.

(** The average is a rounded sum divided by the length, and need not lie
    between the minimum and the maximum: three durations of 0.1 seconds
    have the average 0.10000000000000002. *)
Example average_above_maximum :
  let tenth := (3602879701896397 # 36028797018963968)%Q in
  literal 0.1 = Finite tenth
  ∧ ∃ avg, fdiv (sum [tenth; tenth; tenth]) (Finite 3) = Value (Finite avg)
           ∧ literal 0.10000000000000002 = Finite avg
           ∧ (py_max tenth [tenth; tenth] < avg)%Q.
Proof.
  cbv zeta. split; [by vm_compute|].
  eexists. split; [by vm_compute|]. split; by vm_compute.
Qed.

(** X13.  The timing figures of the summary are in order: for fewer than
    2^53 iterations, the minimum is at most the median, the median at most
    the 95th percentile, and that at most the maximum.  When no iteration
    produced a duration all of them, and the average, are 0. *)
Theorem summary_timing_order (w : world) (args : Namespace) :
  cli_args args ≠ [] →
  iterations args < 2 ^ 53 →
  ∃ report,
    summaries (main w args).2 = [report]
    ∧ (sum_min report <= sum_p50 report)%Q
    ∧ (sum_p50 report <= sum_p95 report)%Q
    ∧ (sum_p95 report <= sum_max report)%Q
    ∧ (durations (run w args (cli_args args)).1 = [] →
       sum_min report = 0%Q ∧ sum_p50 report = 0%Q ∧ sum_p95 report = 0%Q
       ∧ sum_max report = 0%Q ∧ sum_avg report = Finite 0).
Proof.
  intros Hcli Hn.
  pose proof (durations_bound w args Hn) as Hlen.
  destruct (main_report w args Hcli Hn)
    as (avg & p50 & p95 & Hp50 & Hp95 & Havg & _ & Hmain).
  destruct (loop_effects w args (cli_args args) tallies0
              (range 1 (iterations args + 1))) as (_ & Hsum & _).
  fold (run w args (cli_args args)) in Hsum.
  eexists. rewrite Hmain. cbn [snd]. rewrite !summaries_app, Hsum.
  split.
  { destruct (String.eqb (log_dir args) ""); reflexivity. }
  cbn [sum_min sum_p50 sum_p95 sum_max sum_avg].
  rewrite literal_p50 in Hp50.
  destruct literal_p95 as (q & Hq & Hq0 & Hq1). rewrite Hq in Hp95.
  pose proof (percentile_order _ _ _ _ _ Hlen Hq0 Hp50 Hp95) as Horder.
  destruct (durations (run w args (cli_args args)).1) as [|x xs] eqn:Hd.
  - injection Hp50 as <-. injection Hp95 as <-.
    split; [apply Qle_refl|]. split; [apply Qle_refl|].
    split; [apply Qle_refl|]. intros _. rewrite (Havg eq_refl).
    repeat split; reflexivity.
  - apply percentile_In in Hp50; [|done].
    apply percentile_In in Hp95; [|done].
    split; [by apply py_min_least|]. split; [done|].
    split; [by apply py_max_greatest|]. discriminate.
Qed.

Lemma summary_timing_order_witness :
  ∃ report,
    summaries (main slow_second
                 {| jar := "order-manager.jar"; iterations := 3; sleep := 0;
                    timeout := 30; log_dir := ""; verbose := false;
                    command := ["list"] |}).2 = [report]
    ∧ (sum_p50 report <= sum_p95 report)%Q.
Proof.
  destruct (summary_timing_order slow_second
              {| jar := "order-manager.jar"; iterations := 3; sleep := 0;
                 timeout := 30; log_dir := ""; verbose := false;
                 command := ["list"] |})
    as (report & Hsum & _ & Horder & _); [discriminate|reflexivity|].
  exists report. split; [exact Hsum | exact Horder].
Defined.

Section PercentileOfASample.

Implicit Types (x y u v p : Q) (xs ys l : list Q).

Lemma filter_length_perm (f : Q → bool) l l' :
  Permutation l l' → length (List.filter f l) = length (List.filter f l').
Proof.
  induction 1 as [|x l l' _ IH|x y l|l l' l'' _ IH _ IH']; simpl.
  - done.
  - destruct (f x); simpl; by rewrite IH.
  - destruct (f x), (f y); done.
  - by rewrite IH.
Qed.

Lemma filter_length_le (f g : Q → bool) l :
  (∀ y, f y = true → g y = true) →
  (length (List.filter f l) ≤ length (List.filter g l))%nat.
Proof.
  intros Hfg. induction l as [|x l IH]; simpl; [done|].
  destruct (f x) eqn:Hf.
  - rewrite (Hfg x Hf). simpl. lia.
  - destruct (g x); simpl; lia.
Qed.

Lemma filter_length_none (f : Q → bool) l :
  Forall (fun y => f y = false) l → length (List.filter f l) = 0%nat.
Proof.
  induction 1 as [|x l Hx _ IH]; simpl; [done|]. by rewrite Hx.
Qed.

(** In an ascending list the value at index [i] has at most [i] values
    strictly below it and more than [i] values at or below it. *)
Lemma ascending_rank l (i : nat) v :
  StronglySorted Qle l → nth_error l i = Some v →
  (below v l ≤ i)%nat ∧ (i < upto v l)%nat.
Proof.
  unfold below, upto. intros Hl. revert i.
  induction Hl as [|x l Hl IH Hx]; intros i Hv; [by destruct i|].
  destruct i as [|i]; simpl in Hv.
  - injection Hv as <-. simpl.
    rewrite (proj2 (Qlt_bool_false x x)) by apply Qle_refl.
    rewrite (proj2 (Qle_bool_iff x x)) by apply Qle_refl.
    rewrite filter_length_none; [simpl; lia|].
    eapply Forall_impl; [exact Hx|]. intros y Hy. by apply Qlt_bool_false.
  - destruct (IH i Hv) as [Hlo Hhi]. simpl.
    assert (x <= v)%Q as Hxv.
    { apply nth_error_In in Hv. rewrite List.Forall_forall in Hx. auto. }
    rewrite (proj2 (Qle_bool_iff x v) Hxv).
    destruct (Qlt_bool x v); simpl; lia.
Qed.

Lemma ascending_same_rank l l' (i : nat) u v :
  StronglySorted Qle l → StronglySorted Qle l' → Permutation l l' →
  nth_error l i = Some u → nth_error l' i = Some v → (u <= v)%Q.
Proof.
  intros Hl Hl' Hperm Hu Hv.
  destruct (Qlt_le_dec v u) as [Hlt|]; [exfalso|done].
  destruct (ascending_rank l i u Hl Hu) as [Hbelow _].
  destruct (ascending_rank l' i v Hl' Hv) as [_ Hupto].
  unfold below, upto in *.
  rewrite <- (filter_length_perm _ l l' Hperm) in Hupto.
  pose proof (filter_length_le (fun y => Qle_bool y v)
                (fun y => Qlt_bool y u) l) as Hle.
  assert (∀ y, Qle_bool y v = true → Qlt_bool y u = true) as Himp.
  { intros y Hy. apply Qle_bool_iff in Hy. apply Qlt_bool_iff.
    by apply Qle_lt_trans with v. }
  specialize (Hle Himp). lia.
Qed.

End PercentileOfASample.


(** X14.  The percentile is a property of the sample, not of the order in
    which the durations were collected: for every proportion, two lists
    with the same elements, in any order, give the same value, or raise
    the same exception. *)
Theorem percentile_permutation (xs ys : list Q) (pct : float) :
  Permutation xs ys →
  match percentile xs pct, percentile ys pct with
  | Value u, Value v => (u == v)%Q
  | Raised exn, Raised exn' => exn = exn'
  | _, _ => False
  end.
Proof.
  intros Hperm. destruct xs as [|x xs].
  { apply Permutation_nil in Hperm as ->. simpl. reflexivity. }
  destruct ys as [|y ys].
  { symmetry in Hperm. by apply Permutation_nil in Hperm. }
  pose proof (percentile_nonempty (x :: xs) pct) as Hx.
  pose proof (percentile_nonempty (y :: ys) pct) as Hy.
  rewrite <- (Permutation_length Hperm) in Hy.
  destruct (ceil_of_product pct _) as [c|exn].
  - destruct Hx as (u & -> & Hu & _); [done|].
    destruct Hy as (v & -> & Hv & _); [done|].
    assert (Permutation (sorted (x :: xs)) (sorted (y :: ys))) as Hsorted.
    { rewrite !sorted_perm. done. }
    apply Qle_antisym.
    + eapply ascending_same_rank; [| |exact Hsorted|exact Hu|exact Hv];
        apply sorted_ascending.
    + eapply ascending_same_rank; [| |symmetry; exact Hsorted|exact Hv|exact Hu];
        apply sorted_ascending.
  - by rewrite Hx, Hy.
Qed.

Lemma percentile_permutation_witness :
  ∃ u v, percentile [3; 1; 2]%Q (literal 0.50) = Value u
         ∧ percentile [2; 3; 1]%Q (literal 0.50) = Value v ∧ (u == v)%Q.
Proof.
  assert (Permutation [3; 1; 2]%Q [2; 3; 1]%Q) as Hperm.
  { apply perm_trans with [3; 2; 1]%Q.
    - apply perm_skip, perm_swap.
    - apply perm_trans with [2; 3; 1]%Q; [apply perm_swap | reflexivity]. }
  pose proof (percentile_permutation _ _ (literal 0.50) Hperm) as Hsame.
  destruct (percentile [3; 1; 2]%Q (literal 0.50)) as [u|exn] eqn:Hu;
    [|vm_compute in Hu; discriminate Hu].
  destruct (percentile [2; 3; 1]%Q (literal 0.50)) as [v|exn] eqn:Hv;
    [|vm_compute in Hv; discriminate Hv].
  exists u, v. split; [reflexivity|]. split; [reflexivity | exact Hsame].
Defined.

Lemma registry_invariant_witness :
  let reg := (serve attempt_registry
                [(0, GetTime); (1, GetTicker); (2, GetTime); (3, GetAccount)]).2 in
  reg !! "time" = Some 2
  ∧ is_Some (reg !! "ticker")
  ∧ reg !! "place_order" = None.
Proof.
  intros reg.
  pose proof (registry_invariant
                [(0, GetTime); (1, GetTicker); (2, GetTime); (3, GetAccount)])
    as (Hdom & Hval & _).
  fold reg in Hdom, Hval.
  split; [reflexivity|]. split.
  - apply Hdom. reflexivity.
  - destruct (reg !! "place_order") as [v|] eqn:Hv; [|reflexivity].
    assert (is_Some (reg !! "place_order")) as Hsome by (by exists v).
    apply Hdom in Hsome. discriminate Hsome.
Defined.

